(** * SpSnippet: a shallow embedding of the SharePoint helper library

    The library (src/SpSnippet.js) is a set of browser-side functions over
    jQuery and SPServices.  The embedding keeps what those functions do with
    their own data: the requests they build, the way they read a response
    document, the values they return, the globals they assign and the
    callbacks they fire.  The network, the SOAP service, the file reader and
    the user's callbacks are the environment: a response is whatever the
    service answers, and a callback is a name recorded in a log when it is
    called. *)

From Stdlib Require Import ZArith QArith.QArith_base String Ascii List Lia.
From stdpp Require Import base option list gmap strings pretty.

Local Open Scope string_scope.
Local Open Scope list_scope.
Set Warnings "-register-all,-clear-no-such-hyp".

(** ** JavaScript values *)

(** The primitive values the library handles: field values given by the
    caller, attributes read from a response ([undefined] when absent), and
    the contents of its variables.  Numbers are the integer ones: [JNumber n]
    is the Number that holds the integer [n]; an [n] of more than 53
    significant bits that no Number holds is printed as the literal [n] is,
    that is, as the nearest Number. *)
Inductive JsVal :=
  | JUndefined
  | JNull
  | JBool (b : bool)
  | JNumber (n : Z)
  | JString (s : string).

#[global] Instance JsVal_eq_dec : EqDecision JsVal.
Proof. solve_decision. Defined.

(** The Number value of a positive integer: the integer rounded to 53
    significant bits, to the nearest, to the even one of two equally near.
    From two to the 1024 on, the value is Infinity. *)
Definition nearest_double (n : Z) : Z :=
  (let bits := Z.log2 n + 1 in
   if bits <=? 53 then n
   else
     let shift := bits - 53 in
     let q := Z.shiftr n shift in
     let r := Z.land n (Z.ones shift) in
     let half := Z.shiftl 1 (shift - 1) in
     let q := if (half <? r) || ((r =? half) && Z.odd q) then q + 1 else q in
     Z.shiftl q shift)%Z.

(** The digits [Number::toString] prints for a positive integer Number [x]
    (ECMAScript 2015, 7.1.12.1): the decimal number with the fewest
    significant digits whose Number value is [x], the nearest to [x] when
    there are several, the one with the even last digit when two are equally
    near.  [zeros] is the number of final zeros tried, from the length of
    [x] less one downwards; the decimal numbers on both sides of [x] are
    the only ones to try. *)
Fixpoint shortest_decimal (x : Z) (zeros : nat) : Z :=
  match zeros with
  | O => x
  | S fewer =>
      let p := 10 ^ Z.of_nat zeros in
      let lo := x / p * p in
      let hi := lo + p in
      match nearest_double lo =? x, nearest_double hi =? x with
      | true, true =>
          if x - lo <? hi - x then lo
          else if hi - x <? x - lo then hi
          else if Z.even (lo / p) then lo else hi
      | true, false => lo
      | false, true => hi
      | false, false => shortest_decimal x fewer
      end
  end%Z.

Fixpoint strip_zeros (digits : string) : string :=
  match digits with
  | EmptyString => EmptyString
  | String c rest =>
      match strip_zeros rest with
      | EmptyString => if Ascii.eqb c "0"%char then EmptyString else String c EmptyString
      | kept => String c kept
      end
  end.

(** [Number::toString] on the integers: all the digits up to twenty-one of
    them, and from there on the significant digits, a point after the first
    when there are more, and the exponent. *)
Definition NumberToString (n : Z) : string :=
  if (n =? 0)%Z then "0"
  else
    let sign := if (n <? 0)%Z then "-" else "" in
    let x := nearest_double (Z.abs n) in
    if (2 ^ 1024 <=? x)%Z then sign +:+ "Infinity"
    else
      let digits := pretty (shortest_decimal x (String.length (pretty x) - 1)) in
      if (String.length digits <=? 21)%nat then sign +:+ digits
      else
        match strip_zeros digits with
        | String d EmptyString =>
            sign +:+ String d ("e+" +:+ pretty (String.length digits - 1)%nat)
        | String d more =>
            sign +:+ String d ("." +:+ more +:+ "e+" +:+ pretty (String.length digits - 1)%nat)
        | EmptyString => sign
        end.

(** [ToString], as string concatenation applies it to an operand. *)
Definition ToString (v : JsVal) : string :=
  match v with
  | JUndefined => "undefined"
  | JNull => "null"
  | JBool true => "true"
  | JBool false => "false"
  | JNumber n => NumberToString n
  | JString s => s
  end.

(** [ToBoolean], as [x ? a : b] and [if (x)] apply it. *)
Definition ToBoolean (v : JsVal) : bool :=
  match v with
  | JUndefined | JNull => false
  | JBool b => b
  | JNumber n => negb (n =? 0)%Z
  | JString s => negb (String.eqb s "")
  end.

(** A string that may be missing (an argument left out, an attribute a node
    does not have): [None] is [undefined]. *)
Definition or_undefined (a : option string) : JsVal :=
  match a with Some s => JString s | None => JUndefined end.

(** Numbers as [>=] sees them. *)
Inductive Number :=
  | NaN
  | Finite (q : Q)
  | Infinity (negative : bool).

(** [x >= 0] on numbers: false on NaN. *)
Definition ge_zero (x : Number) : bool :=
  match x with
  | NaN => false
  | Finite q => Qle_bool 0 q
  | Infinity negative => negb negative
  end.

Section Coercion.
(** The numeric reading of a string is the language's ([StringToNumber] of
    ECMAScript: blanks trimmed, decimal and hexadecimal literals, NaN for
    the rest); the library only compares its result with zero. *)
Variable StringToNumber : string -> Number.

Definition ToNumber (v : JsVal) : Number :=
  match v with
  | JUndefined => NaN
  | JNull => Finite 0
  | JBool b => Finite (if b then 1 else 0)
  | JNumber n => Finite (inject_Z n)
  | JString s => StringToNumber s
  end.

(** [v >= 0] *)
Definition js_ge_zero (v : JsVal) : bool := ge_zero (ToNumber v).
End Coercion.

(** The reading restricted to decimal integer literals with an optional
    minus sign, the empty string read as zero and anything else as NaN (no
    blanks trimmed, no fractions, no exponents); used to run the functions
    on examples. *)
Fixpoint digits_value (acc : Z) (s : string) : option Z :=
  match s with
  | EmptyString => Some acc
  | String c rest =>
      let d := Z.of_nat (nat_of_ascii c) - 48 in
      if ((0 <=? d) && (d <=? 9))%Z then digits_value (10 * acc + d) rest else None
  end%Z.

Definition decimalToNumber (s : string) : Number :=
  match s with
  | EmptyString => Finite 0
  | String "-" (String c r) =>
      match digits_value 0 (String c r) with
      | Some z => Finite (inject_Z (- z))
      | None => NaN
      end
  | _ => match digits_value 0 s with Some z => Finite (inject_Z z) | None => NaN end
  end.

(** Strings are sequences of bytes; on the ASCII text of a data URL the
    indices are those of JavaScript.

    [s.indexOf(pat)]: the index of the first occurrence, or -1. *)
Definition indexOf (s pat : string) : Z :=
  match String.index 0 pat s with
  | Some k => Z.of_nat k
  | None => -1
  end.

(** [s.substring(n)]: from index [n], clamped to the string, to the end. *)
Definition substring_from (s : string) (n : Z) : string :=
  let k := Z.to_nat (Z.min (Z.max n 0) (Z.of_nat (String.length s))) in
  String.substring k (String.length s - k) s.

(** [a[i]]: [undefined] past the end. *)
Definition index_read (a : list JsVal) (i : nat) : JsVal :=
  default JUndefined (a !! i).

(** [a[i] = v] on an array whose missing slots are [None]: an index past the
    end extends the array, leaving holes between. *)
Definition array_set {A} (a : list (option A)) (i : nat) (v : A) : list (option A) :=
  if decide (i < length a) then <[i := Some v]> a
  else a ++ replicate (i - length a) None ++ [Some v].

(** ** Response documents and the jQuery accessors *)

Inductive Node :=
  | Text (s : string)
  | Element (nodeName : string) (attributes : list (string * string)) (childNodes : list Node).

(** The element itself and its descendants, elements only, in document
    order: what [find('*')] collects under a document. *)
Fixpoint elements (x : Node) : list Node :=
  match x with
  | Text _ => []
  | Element _ _ kids => x :: flat_map elements kids
  end.

(** [$(xData.responseXML)]: the set is empty when there is no document. *)
Definition all_elements (responseXML : option Node) : list Node :=
  match responseXML with
  | Some root => elements root
  | None => []
  end.

Definition has_name (name : string) (x : Node) : bool :=
  match x with
  | Element n _ _ => String.eqb n name
  | Text _ => false
  end.

(** [$(doc).SPFilterNode(name)]: the elements whose nodeName is [name]. *)
Definition SPFilterNode (name : string) (responseXML : option Node) : list Node :=
  List.filter (has_name name) (all_elements responseXML).

(** [$(doc).find(tag)] with a tag name for selector. *)
Definition find (tag : string) (responseXML : option Node) : list Node :=
  List.filter (has_name tag) (all_elements responseXML).

Fixpoint assoc (k : string) (l : list (string * string)) : option string :=
  match l with
  | [] => None
  | (k', v) :: rest => if String.eqb k' k then Some v else assoc k rest
  end.

(** [set.attr(name)]: the attribute of the first element of the set;
    [undefined] on an empty set and on a missing attribute. *)
Definition attr (set : list Node) (name : string) : JsVal :=
  match set with
  | Element _ attrs _ :: _ => or_undefined (assoc name attrs)
  | _ => JUndefined
  end.

(** [$(this).text()]: the text of the node and of its descendants. *)
Fixpoint text (x : Node) : string :=
  match x with
  | Text s => s
  | Element _ _ kids => fold_right (fun k acc => text k +:+ acc) "" kids
  end.

(** ** Requests, responses and the state of the page *)

(** What a completion function receives: [xData.responseXML] (absent when
    the transport delivered no document) and the status string. *)
Record Response := { responseXML : option Node; Status : string }.

(** The options given to [$().SPServices]; a key left out, or given an
    argument that was itself left out, is [None]. *)
Record SPRequest := {
  operation : string;
  async : bool;
  webURL : option string;
  listName : string;
  CAMLViewFields : option string;
  CAMLQuery : option string;
  batchCmd : option string;
  valuepairs : option (list (JsVal * JsVal));
  updates : option string
}.

(** The options given to [$.ajax]. *)
Record AjaxRequest := {
  url : string;
  ajax_async : bool;
  SOAPAction : option string;
  type : string;
  dataType : string;
  data : string;
  contentType : string
}.

(** A callback of the caller is known by a name. *)
Definition Callback := string.

(** A row object: its own properties, a finite map from names to values. *)
Abbreviation ListItem := (gmap string JsVal).

(** [obj[key] = value] with a string or [undefined] for value, on an object
    created by [{}]: an own property, except under the name [__proto__],
    where the assignment goes to the accessor the object inherits, which
    ignores a value that is neither an object nor null (ECMAScript 2015,
    B.2.2.1). *)
Definition assign {V : Type} (key : string) (value : V) (obj : gmap string V)
    : gmap string V :=
  if String.eqb key "__proto__" then obj else <[key := value]> obj.

(** The closure given as [completefunc] by getListItems and
    getExternalListItems, by the variables it captured: [fields], the array
    [listItems] (a reference), the counter [i] and [callback]. *)
Record ListCompletion := {
  c_fields : list string;
  c_listItems : nat;
  c_i : nat;
  c_callback : option Callback
}.

(** The closure uploadFile installs as [onload], by what it captured. *)
Record OnLoad := {
  o_path : JsVal;
  o_urlSite : string;
  o_lName : string;
  o_filename : string;
  o_fieldInformation : string;
  o_successCallback : option Callback;
  o_errorCallback : option Callback
}.

(** A FileReader: [result] is null ([None]) until the read is done; [source]
    is the data URL its file reads as, once [readAsDataURL] was called. *)
Record Reader := {
  result : option string;
  r_filename : JsVal;
  onload : option OnLoad;
  source : option string
}.

(** The value of a global variable: a primitive or a FileReader. *)
Inductive GVal :=
  | GPrim (v : JsVal)
  | GReader (r : nat).

(** What the environment observes. *)
Inductive Event :=
  | CallList (cb : Callback) (listItems : nat) (items : list (option ListItem))
  | CallSuccess (cb : Callback)
  | CallError (cb : Callback)
  | ConsoleLog (msg : string).

(** The page: the global variables the library assigns without declaring
    them ([isAsync], [filereader], [data], [n], [responseError]), the arrays
    and readers it allocated, the file inputs of the document by id, the
    asynchronous requests in flight, and the logs of requests sent and
    callbacks fired. *)
Record World := {
  globals : gmap string GVal;
  arrays : list (list (option ListItem));
  readers : list Reader;
  inputs : gmap string string;
  pending : list (option ListCompletion);
  uploads : list (option (option Callback * option Callback));
  requests : list SPRequest;
  posts : list AjaxRequest;
  log : list Event
}.

Definition set_global (x : string) (v : GVal) (w : World) : World :=
  {| globals := <[x := v]> (globals w); arrays := arrays w; readers := readers w;
     inputs := inputs w; pending := pending w; uploads := uploads w;
     requests := requests w; posts := posts w; log := log w |}.

Definition set_arrays (a : list (list (option ListItem))) (w : World) : World :=
  {| globals := globals w; arrays := a; readers := readers w;
     inputs := inputs w; pending := pending w; uploads := uploads w;
     requests := requests w; posts := posts w; log := log w |}.

Definition set_readers (r : list Reader) (w : World) : World :=
  {| globals := globals w; arrays := arrays w; readers := r;
     inputs := inputs w; pending := pending w; uploads := uploads w;
     requests := requests w; posts := posts w; log := log w |}.

Definition set_pending (p : list (option ListCompletion)) (w : World) : World :=
  {| globals := globals w; arrays := arrays w; readers := readers w;
     inputs := inputs w; pending := p; uploads := uploads w;
     requests := requests w; posts := posts w; log := log w |}.

Definition set_uploads (u : list (option (option Callback * option Callback))) (w : World) : World :=
  {| globals := globals w; arrays := arrays w; readers := readers w;
     inputs := inputs w; pending := pending w; uploads := u;
     requests := requests w; posts := posts w; log := log w |}.

Definition add_request (r : SPRequest) (w : World) : World :=
  {| globals := globals w; arrays := arrays w; readers := readers w;
     inputs := inputs w; pending := pending w; uploads := uploads w;
     requests := requests w ++ [r]; posts := posts w; log := log w |}.

Definition add_post (r : AjaxRequest) (w : World) : World :=
  {| globals := globals w; arrays := arrays w; readers := readers w;
     inputs := inputs w; pending := pending w; uploads := uploads w;
     requests := requests w; posts := posts w ++ [r]; log := log w |}.

Definition add_event (e : Event) (w : World) : World :=
  {| globals := globals w; arrays := arrays w; readers := readers w;
     inputs := inputs w; pending := pending w; uploads := uploads w;
     requests := requests w; posts := posts w; log := log w ++ [e] |}.

(** A freshly loaded page with the given file inputs. *)
Definition page (ins : gmap string string) : World :=
  {| globals := ∅; arrays := []; readers := []; inputs := ins; pending := [];
     uploads := []; requests := []; posts := []; log := [] |}.

(** A global read where a condition or a flag is expected. *)
Definition global_truthy (x : string) (w : World) : bool :=
  match globals w !! x with
  | Some (GPrim v) => ToBoolean v
  | Some (GReader _) => true
  | None => false
  end.

(** [var listItems = []]: a new array, known by its index in the store. *)
Definition new_array (w : World) : nat * World :=
  (length (arrays w), set_arrays (arrays w ++ [[]]) w).

Definition array_at (l : nat) (w : World) : list (option ListItem) :=
  default [] (arrays w !! l).

Definition update_array (l : nat)
    (f : list (option ListItem) -> list (option ListItem)) (w : World) : World :=
  set_arrays (alter f l (arrays w)) w.

(** ** Reading list items *)

(** The body of [.each] over the rows (lines 102-109): [listItems[i] = {}],
    then one assignment per requested field, then [i++].  The assignment
    goes through [listItems[i]], which the line before has just filled; what
    [attr] gives is a string or [undefined]. *)
Definition each_row (c_fields : list string) (listItems : nat)
    (st : World * nat) (row : Node) : World * nat :=
  let '(w, i) := st in
  let w := update_array listItems (fun a => array_set a i ∅) w in
  let w :=
    foldl (fun w item =>
             update_array listItems
               (alter (fmap (assign item (attr [row] ("ows_" +:+ item)))) i) w)
          w c_fields in
  (w, S i).

(** [completefunc] of getListItems and getExternalListItems (lines 100-113
    and 389-402).  [isAsync] is the global variable, read when the response
    arrives; [callback] is the captured argument, and calling it when it is
    undefined is a TypeError that ends the function. *)
Definition completefunc (c : ListCompletion) (xData : Response) (w : World) : World :=
  if String.eqb (Status xData) "success" then
    let '(w, _) :=
      foldl (each_row (c_fields c) (c_listItems c)) (w, c_i c)
            (SPFilterNode "z:row" (responseXML xData)) in
    if global_truthy "isAsync" w then
      match c_callback c with
      | Some cb => add_event (CallList cb (c_listItems c) (array_at (c_listItems c) w)) w
      | None => w
      end
    else w
  else w.

(** [$().SPServices(options)] for the two reading functions: the request is
    sent; with [async: false] the completion function has run on the
    service's answer [sp req] when the call returns, otherwise it is kept
    until the answer arrives ([complete]). *)
Definition SPServices (sp : SPRequest -> Response) (req : SPRequest)
    (c : ListCompletion) (w : World) : World :=
  let w := add_request req w in
  if async req then set_pending (pending w ++ [Some c]) w
  else completefunc c (sp req) w.

(** The answer to the [k]-th asynchronous request arrives; a request is
    answered once. *)
Definition complete (k : nat) (xData : Response) (w : World) : World :=
  match pending w !! k with
  | Some (Some c) => completefunc c xData (set_pending (<[k := None]> (pending w)) w)
  | _ => w
  end.

(** What getListItems and getExternalListItems return: [false], one row
    object, or the array itself (a reference into the store); [RUndefined]
    is what [listItems[0]] would read from a hole. *)
Inductive Result :=
  | RBool (b : bool)
  | RUndefined
  | RObject (o : ListItem)
  | RArray (listItems : nat).

(** The options objects of the SPServices calls: the reading ones (lines
    94-99 and 382-388), the one of createNewListItem (lines 149-154) and the
    ones that carry a batch (lines 185-189, 216-220 and 349-353). *)
Definition GetListItems_options (isAsync : bool) (webUrl : option string)
    (lName viewFields : string) (query : option string) : SPRequest :=
  {| operation := "GetListItems"; async := isAsync; webURL := webUrl;
     listName := lName; CAMLViewFields := Some viewFields; CAMLQuery := query;
     batchCmd := None; valuepairs := None; updates := None |}.

Definition New_options (lName : string) (fieldValues : list (JsVal * JsVal)) : SPRequest :=
  {| operation := "UpdateListItems"; async := false; webURL := None;
     listName := lName; CAMLViewFields := None; CAMLQuery := None;
     batchCmd := Some "New"; valuepairs := Some fieldValues; updates := None |}.

Definition Batch_options (lName batch : string) : SPRequest :=
  {| operation := "UpdateListItems"; async := false; webURL := None;
     listName := lName; CAMLViewFields := None; CAMLQuery := None;
     batchCmd := None; valuepairs := None; updates := Some batch |}.

Definition viewFields_of (fields : list string) : string :=
  let viewFields :=
    foldl (fun viewFields item => viewFields +:+ "<FieldRef Name='" +:+ item +:+ "'/>")
          "" fields in
  "<ViewFields>" +:+ viewFields +:+ "</ViewFields>".

(** [query ? query : "<Query></Query>"] (line 84): the query getListItems
    sends for the query it was given. *)
Definition sent_query (query : option string) : string :=
  if ToBoolean (or_undefined query) then ToString (or_undefined query) else "<Query></Query>".

(** getListItems (lines 83-123). *)
Definition getListItems (sp : SPRequest -> Response) (lName : string)
    (fields : list string) (query : option string) (callback : option Callback)
    (w : World) : Result * World :=
  let query := sent_query query in
  let w := set_global "isAsync" (GPrim (JBool (match callback with Some _ => true | None => false end))) w in
  let i := 0%nat in
  let '(listItems, w) := new_array w in
  let viewFields := viewFields_of fields in
  let w :=
    SPServices sp
      (GetListItems_options (global_truthy "isAsync" w) None lName viewFields (Some query))
      {| c_fields := fields; c_listItems := listItems; c_i := i; c_callback := callback |}
      w in
  if (1 <? length (array_at listItems w))%nat then (RArray listItems, w)
  else if (length (array_at listItems w) =? 1)%nat then
    (match array_at listItems w !! 0%nat with
     | Some (Some o) => RObject o
     | _ => RUndefined
     end, w)
  else (RBool false, w).

(** getExternalListItems (lines 372-405): [query] is forwarded as given. *)
Definition getExternalListItems (sp : SPRequest -> Response) (lName : string)
    (query : option string) (fields : list string) (webUrl : option string)
    (callback : option Callback) (w : World) : Result * World :=
  let w := set_global "isAsync" (GPrim (JBool (match callback with Some _ => true | None => false end))) w in
  let i := 0%nat in
  let '(listItems, w) := new_array w in
  let viewFields := viewFields_of fields in
  let w :=
    SPServices sp
      (GetListItems_options (global_truthy "isAsync" w) webUrl lName viewFields query)
      {| c_fields := fields; c_listItems := listItems; c_i := i; c_callback := callback |}
      w in
  (RArray listItems, w).

(** The object a row is parsed into: one assignment per requested field,
    of the attribute of the same name with the [ows_] prefix. *)
Definition row_object (fields : list string) (row : Node) : ListItem :=
  foldl (fun o item => assign item (attr [row] ("ows_" +:+ item)) o) ∅ fields.

(** The rows a response is parsed into: those of the document when the
    status is "success", none otherwise. *)
Definition parsed_rows (fields : list string) (xData : Response) : list ListItem :=
  if String.eqb (Status xData) "success"
  then row_object fields <$> SPFilterNode "z:row" (responseXML xData)
  else [].

(** ** Writing list items *)

(** [a.forEach(function (item, index) { ... })] as a fold over the items
    with their indices. *)
Fixpoint forEach_from {A St : Type} (index : nat) (a : list A)
    (fn : A -> nat -> St -> St) (s : St) : St :=
  match a with
  | [] => s
  | item :: rest => forEach_from (S index) rest fn (fn item index s)
  end.

Definition forEach {A St : Type} (a : list A) (fn : A -> nat -> St -> St) (s : St) : St :=
  forEach_from 0 a fn s.

(** The pairs createNewListItem builds (lines 142-147): [fields[index]] and
    [values[index]] are array reads. *)
Definition marshal_pairs (fields : list string) (values : list JsVal) : list (JsVal * JsVal) :=
  forEach fields
    (fun item index fieldValues =>
       let pairs := (index_read (JString <$> fields) index, index_read values index) in
       fieldValues ++ [pairs])
    [].

(** The [<Field>] elements updateListItem builds (lines 179-182). *)
Definition marshal_fields (fields : list string) (values : list JsVal) : string :=
  forEach fields
    (fun item index fieldValues =>
       fieldValues +:+ "<Field Name='" +:+ ToString (index_read (JString <$> fields) index)
         +:+ "'>" +:+ ToString (index_read values index) +:+ "</Field>")
    "".

(** The batch of updateListItem (line 183). *)
Definition update_batch (fields : list string) (values : list JsVal) : string :=
  let fieldValues := marshal_fields fields values in
  "<Batch OnError='Continue' PreCalc='TRUE'><Method ID='1' Cmd='Update'>"
    +:+ fieldValues +:+ "</Method></Batch>".

Section Writing.
Variable StringToNumber : string -> Number.
Variable sp : SPRequest -> Response.

(** createNewListItem (lines 141-165).  The call is synchronous: the
    completion function has run on the answer when SPServices returns. *)
Definition createNewListItem (lName : string) (fields : list string)
    (values : list JsVal) (w : World) : bool * World :=
  let fieldValues := marshal_pairs fields values in
  let response := false in
  let req := New_options lName fieldValues in
  let w := add_request req w in
  let xData := sp req in
  let newId := attr (SPFilterNode "z:row" (responseXML xData)) "ows_ID" in
  let response :=
    if String.eqb (Status xData) "success" && js_ge_zero StringToNumber newId
    then true else false in
  (response, w).

(** updateListItem (lines 178-200): [response] is declared without a
    value and assigned by the completion function. *)
Definition updateListItem (lName : string) (fields : list string)
    (values : list JsVal) (w : World) : JsVal * World :=
  let batch := update_batch fields values in
  let response := JUndefined in
  let req := Batch_options lName batch in
  let w := add_request req w in
  let xData := sp req in
  let newId := attr (SPFilterNode "z:row" (responseXML xData)) "ows_ID" in
  let response :=
    if String.eqb (Status xData) "success" && js_ge_zero StringToNumber newId
    then JBool true else JBool false in
  (response, w).

(** deleteListItem (lines 212-231). *)
Definition deleteListItem (lName : string) (id : JsVal) (w : World) : JsVal * World :=
  let fieldValues := "<Field Name='ID'>" +:+ ToString id +:+ "</Field>" in
  let batch :=
    "<Batch OnError='Continue' PreCalc='TRUE'><Method ID='1' Cmd='Delete'>"
      +:+ fieldValues +:+ "</Method></Batch>" in
  let response := JUndefined in
  let req := Batch_options lName batch in
  let w := add_request req w in
  let xData := sp req in
  let newId := attr (SPFilterNode "z:row" (responseXML xData)) "ows_ID" in
  let response :=
    if String.eqb (Status xData) "success" && js_ge_zero StringToNumber newId
    then JBool true else JBool false in
  (response, w).
End Writing.

(** The success predicate of create and update in the words of the
    specification: the transport status is "success" and the response holds
    a row identifier that is not negative (as [>=] reads it). *)
Definition spec_success (StringToNumber : string -> Number) (xData : Response) : Prop :=
  Status xData = "success"
  /\ exists row rest id,
       SPFilterNode "z:row" (responseXML xData) = row :: rest
       /\ attr [row] "ows_ID" = JString id
       /\ ge_zero (StringToNumber id) = true.

(** The marshalling in the words of the specification: the field at index
    [i] goes with the value at index [i], or with [undefined] when the
    values end before. *)
Definition pair_at (values : list JsVal) (i : nat) (f : string) : JsVal * JsVal :=
  (JString f, default JUndefined (values !! i)).

Definition field_at (values : list JsVal) (i : nat) (f : string) : string :=
  "<Field Name='" +:+ f +:+ "'>" +:+ ToString (default JUndefined (values !! i)) +:+ "</Field>".

(** ** Files *)

Fixpoint spaces (n : nat) : string :=
  match n with
  | O => EmptyString
  | S k => String " "%char (spaces k)
  end.

(** The body of [.each] over the ErrorCode nodes (lines 355-362):
    [responseError] is a global. *)
Definition each_ErrorCode (st : bool * World) (this : Node) : bool * World :=
  let '(response, w) := st in
  let w := set_global "responseError" (GPrim (JString (text this))) w in
  if String.eqb (text this) "0x00000000" then (true, w) else (false, w).

(** The batch of deleteFile (lines 341-346); a line of the literal that
    ends in a backslash continues with the indentation of the next. *)
Definition deleteFile_batch (filePath : string) (id : JsVal) : string :=
  "<Batch OnError='Continue'>" +:+ spaces 24 +:+ "<Method ID='1' Cmd='Delete'>"
    +:+ spaces 28 +:+ "<Field Name='ID'>" +:+ ToString id
    +:+ "</Field>" +:+ spaces 28 +:+ "<Field Name='FileRef'>" +:+ filePath
    +:+ "</Field>" +:+ spaces 24 +:+ "</Method>" +:+ spaces 20 +:+ "</Batch>".

(** deleteFile (lines 340-366). *)
Definition deleteFile (sp : SPRequest -> Response) (lName filePath : string)
    (id : JsVal) (w : World) : bool * World :=
  let batchCmd := deleteFile_batch filePath id in
  let response := false in
  let req := Batch_options lName batchCmd in
  let w := add_request req w in
  let xData := sp req in
  foldl each_ErrorCode (response, w) (SPFilterNode "ErrorCode" (responseXML xData)).

Definition dquote : string := String (ascii_of_nat 34) EmptyString.

Definition xml_contentType : string :=
  "text/xml; charset=" +:+ dquote +:+ "utf-8" +:+ dquote.

Definition soap_Envelope_open : string :=
  "<soap:Envelope xmlns:xsi='http://www.w3.org/2001/XMLSchema-instance' xmlns:xsd='http://www.w3.org/2001/XMLSchema' xmlns:soap='http://schemas.xmlsoap.org/soap/envelope/'>".

(** The envelope of the copy request (lines 287-301); a line of the literal
    that ends in a backslash continues with the indentation of the next. *)
Definition upload_envelope (path : JsVal) (urlSite lName filename fieldInformation data : string)
    : string :=
  soap_Envelope_open +:+ spaces 13 +:+ "<soap:Body>" +:+ spaces 16
    +:+ "<CopyIntoItems xmlns='http://schemas.microsoft.com/sharepoint/soap/'>"
    +:+ spaces 20 +:+ "<SourceUrl>" +:+ ToString path
    +:+ "</SourceUrl>" +:+ spaces 24 +:+ "<DestinationUrls>" +:+ spaces 28
    +:+ "<string>" +:+ urlSite +:+ "/" +:+ lName +:+ "/" +:+ filename
    +:+ "</string>" +:+ spaces 24 +:+ "</DestinationUrls>" +:+ spaces 24
    +:+ "<Fields>" +:+ spaces 28 +:+ fieldInformation
    +:+ spaces 24 +:+ "</Fields>" +:+ spaces 20 +:+ "<Stream>" +:+ data
    +:+ "</Stream>" +:+ spaces 16 +:+ "</CopyIntoItems>" +:+ spaces 12
    +:+ "</soap:Body>" +:+ spaces 8 +:+ "</soap:Envelope>".

(** The options of the copy post (lines 303-323), callbacks apart. *)
Definition upload_options (urlSite soapEnv : string) : AjaxRequest :=
  {| url := urlSite +:+ "/_vti_bin/Copy.asmx"; ajax_async := true;
     SOAPAction := Some "http://schemas.microsoft.com/sharepoint/soap/CopyIntoItems";
     type := "POST"; dataType := "xml"; data := soapEnv;
     contentType := xml_contentType |}.

(** The handler uploadFile installs as [onload] (lines 283-324).
    [filereader], [data] and [n] are globals: the handler reads the result of
    whatever reader [filereader] names when it runs.  A result that is still
    null makes [data.indexOf] a TypeError, which ends the handler. *)
Definition onload_handler (c : OnLoad) (w : World) : World :=
  match globals w !! "filereader" with
  | Some (GReader g) =>
      match result <$> readers w !! g with
      | Some (Some d) =>
          let w := set_global "data" (GPrim (JString d)) w in
          let n := (indexOf d ";base64," + 8)%Z in
          let w := set_global "n" (GPrim (JNumber n)) w in
          let d := substring_from d n in
          let w := set_global "data" (GPrim (JString d)) w in
          let soapEnv :=
            upload_envelope (o_path c) (o_urlSite c) (o_lName c) (o_filename c)
              (o_fieldInformation c) d in
          let w := add_post (upload_options (o_urlSite c) soapEnv) w in
          set_uploads (uploads w ++ [Some (o_successCallback c, o_errorCallback c)]) w
      | Some None => set_global "data" (GPrim JNull) w
      | None => w
      end
  | _ => w
  end.

(** The metadata of the file (lines 273-280). *)
Definition fieldInformation_of (fields : list (list JsVal)) : string :=
  foldl (fun fieldInformation values =>
           let type := index_read values 0 in
           let displayName := index_read values 1 in
           let internalName := index_read values 2 in
           let value := index_read values 3 in
           fieldInformation +:+ "<FieldInformation Type='" +:+ ToString type
             +:+ "' DisplayName='" +:+ ToString displayName
             +:+ "' InternalName='" +:+ ToString internalName
             +:+ "' Value='" +:+ ToString value +:+ "'/>")
        "" fields.

(** An assignment to a property of the reader [filereader] names. *)
Definition on_filereader (f : Reader -> Reader) (w : World) : World :=
  match globals w !! "filereader" with
  | Some (GReader g) => set_readers (alter f g (readers w)) w
  | _ => w
  end.

(** uploadFile (lines 271-326); [file] is given by the data URL it reads
    as.  The function returns nothing: the request is posted by the handler
    when the read is done ([loaded]). *)
Definition uploadFile (urlSite lName idInputFile : string) (fields : list (list JsVal))
    (filename : string) (file : string) (successCallback errorCallback : option Callback)
    (w : World) : World :=
  let path := or_undefined (inputs w !! idInputFile) in
  let fieldInformation := fieldInformation_of fields in
  let w :=
    set_global "filereader" (GReader (length (readers w)))
      (set_readers
         (readers w ++ [{| result := None; r_filename := JUndefined;
                           onload := None; source := None |}]) w) in
  let w :=
    on_filereader (fun r => {| result := result r; r_filename := JString filename;
                               onload := onload r; source := source r |}) w in
  let w :=
    on_filereader
      (fun r => {| result := result r; r_filename := r_filename r;
                   onload := Some {| o_path := path; o_urlSite := urlSite; o_lName := lName;
                                     o_filename := filename;
                                     o_fieldInformation := fieldInformation;
                                     o_successCallback := successCallback;
                                     o_errorCallback := errorCallback |};
                   source := source r |}) w in
  on_filereader (fun r => {| result := result r; r_filename := r_filename r;
                             onload := onload r; source := Some file |}) w.

(** Reader [r] has read its file: [result] is set and [onload] fires. *)
Definition loaded (r : nat) (w : World) : World :=
  match readers w !! r with
  | Some rd =>
      match source rd with
      | Some dataURL =>
          let w :=
            set_readers
              (<[r := {| result := Some dataURL; r_filename := r_filename rd;
                         onload := onload rd; source := None |}]> (readers w)) w in
          match onload rd with
          | Some c => onload_handler c w
          | None => w
          end
      | None => w
      end
  | None => w
  end.

(** The [k]-th copy request is settled: the [success] or the [error] option
    of the post runs (lines 310-321). *)
Definition settled (k : nat) (ok : bool) (w : World) : World :=
  match uploads w !! k with
  | Some (Some (successCallback, errorCallback)) =>
      let w := set_uploads (<[k := None]> (uploads w)) w in
      if ok then
        match successCallback with
        | Some cb => add_event (CallSuccess cb) w
        | None => add_event (ConsoleLog "File uploaded successfully") w
        end
      else
        match errorCallback with
        | Some cb => add_event (CallError cb) w
        | None => add_event (ConsoleLog "The file couldn't be uploaded") w
        end
  | _ => w
  end.

(** ** The current user *)

Definition URL_SITE : string := "http://yoursiteurl.us/url/of/your/site".

(** getCurrentUser (lines 469-491): a synchronous post of the options
    below; [complete] has run on the answer [ajax req] when [$.ajax]
    returns. *)
Definition getCurrentUser_options : AjaxRequest :=
  let soapEnv :=
    soap_Envelope_open +:+ spaces 21 +:+ "<soap:Body>" +:+ spaces 25
      +:+ "<GetCurrentUserInfo xmlns='http://schemas.microsoft.com/sharepoint/soap/directory/' />"
      +:+ spaces 21 +:+ "</soap:Body>" +:+ spaces 17 +:+ "</soap:Envelope>" in
  {| url := URL_SITE +:+ "/_vti_bin/usergroup.asmx"; ajax_async := false;
     SOAPAction := None; type := "POST"; dataType := "xml"; data := soapEnv;
     contentType := xml_contentType |}.

Definition getCurrentUser (ajax : AjaxRequest -> Response) (w : World)
    : list JsVal * World :=
  let idUser := JUndefined in
  let name := JUndefined in
  let req := getCurrentUser_options in
  let w := add_post req w in
  let xData := ajax req in
  let idUser := attr (find "User" (responseXML xData)) "ID" in
  let name := attr (find "User" (responseXML xData)) "Name" in
  let user := [idUser; name] in
  (user, w).

(** ** Sample answers and scenarios *)

(** An answer with status "success" whose document has no row. *)
Definition no_rows : Response :=
  {| responseXML := Some (Element "listitems" [] [Element "rs:data" [("ItemCount", "0")] []]);
     Status := "success" |}.

(** An answer with status "success" and one row. *)
Definition one_row : Response :=
  {| responseXML :=
       Some (Element "listitems" []
               [Element "rs:data" [("ItemCount", "1")]
                  [Element "z:row" [("ows_ID", "7"); ("ows_FirstName", "John")] []]]);
     Status := "success" |}.

(** A read with a callback is in flight when a second read, without
    callback, is made; then the answer to the first arrives:
<<
    getListItems("Employees", ["ID", "FirstName"], undefined, showEmployees);
    getListItems("Offices", ["ID"]);
>> *)
Definition interleaved_reads : World :=
  let w1 := (getListItems (fun _ => no_rows) "Employees" ["ID"; "FirstName"] None
               (Some "showEmployees") (page ∅)).2 in
  let w2 := (getListItems (fun _ => no_rows) "Offices" ["ID"] None None w1).2 in
  complete 0 one_row w2.

(** The same read with nothing in between. *)
Definition undisturbed_read : World :=
  let w1 := (getListItems (fun _ => no_rows) "Employees" ["ID"; "FirstName"] None
               (Some "showEmployees") (page ∅)).2 in
  complete 0 one_row w1.

(** Two files are given to uploadFile one after the other, before either
    has been read:
<<
    uploadFile(site, "Docs", "inputA", [], "a.txt", fileA);
    uploadFile(site, "Docs", "inputB", [], "b.txt", fileB);
>> *)
Definition two_uploads : World :=
  let w0 := page {[ "inputA" := "a.txt"; "inputB" := "b.txt" ]} in
  let w1 := uploadFile "http://example.us/site" "Docs" "inputA" [] "a.txt"
              "data:text/plain;base64,QUFB" None None w0 in
  uploadFile "http://example.us/site" "Docs" "inputB" [] "b.txt"
    "data:text/plain;base64,QkJC" None None w1.

(** An answer with a failure status whose document reports no error, and
    answers with two ErrorCode nodes. *)
Definition ErrorCode (code : string) : Node := Element "ErrorCode" [] [Text code].

Definition results_of (codes : list string) : option Node :=
  Some (Element "Results" [] ((fun c => Element "Result" [("ID", "1,Delete")] [ErrorCode c]) <$> codes)).

Definition error_status_no_error_code : Response :=
  {| responseXML := results_of ["0x00000000"]; Status := "error" |}.

Definition failed_then_deleted : Response :=
  {| responseXML := results_of ["0x81020030"; "0x00000000"]; Status := "success" |}.

Definition deleted_then_failed : Response :=
  {| responseXML := results_of ["0x00000000"; "0x81020030"]; Status := "success" |}.

(** An answer without document. *)
Definition no_document : Response := {| responseXML := None; Status := "error" |}.

(** Answers to a write: a row with an identifier, one with a negative
    identifier, and one with a row that has none. *)
Definition written (id : string) : Response :=
  {| responseXML :=
       Some (Element "Results" [] [Element "Result" [] [Element "z:row" [("ows_ID", id)] []]]);
     Status := "success" |}.

Definition written_without_id : Response :=
  {| responseXML :=
       Some (Element "Results" [] [Element "Result" [] [Element "z:row" [("ows_Title", "x")] []]]);
     Status := "success" |}.

Definition refused (id : string) : Response :=
  {| responseXML := responseXML (written id); Status := "error" |}.

(** An answer of the user service, and one without the User element. *)
Definition user_info : Response :=
  {| responseXML :=
       Some (Element "GetCurrentUserInfoResult" []
               [Element "GetUserInfo" [] [Element "User" [("ID", "5"); ("Name", "John Doe")] []]]);
     Status := "success" |}.

Definition soap_fault : Response :=
  {| responseXML := Some (Element "soap:Fault" [] [Element "faultstring" [] [Text "denied"]]);
     Status := "error" |}.

(** ** Writing to another site *)

(** The options objects of the cross-site writes (lines 418-424 and
    447-452): those of the local writes with a [webURL]. *)
Definition New_options_at (webUrl : option string) (lName : string)
    (fieldValues : list (JsVal * JsVal)) : SPRequest :=
  {| operation := "UpdateListItems"; async := false; webURL := webUrl;
     listName := lName; CAMLViewFields := None; CAMLQuery := None;
     batchCmd := Some "New"; valuepairs := Some fieldValues; updates := None |}.

Definition Batch_options_at (webUrl : option string) (lName batch : string) : SPRequest :=
  {| operation := "UpdateListItems"; async := false; webURL := webUrl;
     listName := lName; CAMLViewFields := None; CAMLQuery := None;
     batchCmd := None; valuepairs := None; updates := Some batch |}.

(** The batch of deleteListItem (lines 213-214). *)
Definition delete_batch (id : JsVal) : string :=
  let fieldValues := "<Field Name='ID'>" +:+ ToString id +:+ "</Field>" in
  "<Batch OnError='Continue' PreCalc='TRUE'><Method ID='1' Cmd='Delete'>"
    +:+ fieldValues +:+ "</Method></Batch>".

Section ExternalWriting.
Variable StringToNumber : string -> Number.
Variable sp : SPRequest -> Response.

(** createExternalListItem (lines 410-435). *)
Definition createExternalListItem (lName : string) (fields : list string)
    (values : list JsVal) (webUrl : option string) (w : World) : bool * World :=
  let fieldValues :=
    forEach fields
      (fun item index fieldValues =>
         let pairs := (index_read (JString <$> fields) index, index_read values index) in
         fieldValues ++ [pairs])
      [] in
  let response := false in
  let req := New_options_at webUrl lName fieldValues in
  let w := add_request req w in
  let xData := sp req in
  let newId := attr (SPFilterNode "z:row" (responseXML xData)) "ows_ID" in
  let response :=
    if String.eqb (Status xData) "success" && js_ge_zero StringToNumber newId
    then true else false in
  (response, w).

(** updateExternalListItem (lines 440-463). *)
Definition updateExternalListItem (lName : string) (fields : list string)
    (values : list JsVal) (webUrl : option string) (w : World) : JsVal * World :=
  let fieldValues :=
    forEach fields
      (fun item index fieldValues =>
         fieldValues +:+ "<Field Name='" +:+ ToString (index_read (JString <$> fields) index)
           +:+ "'>" +:+ ToString (index_read values index) +:+ "</Field>")
      "" in
  let batch :=
    "<Batch OnError='Continue' PreCalc='TRUE'><Method ID='1' Cmd='Update'>"
      +:+ fieldValues +:+ "</Method></Batch>" in
  let response := JUndefined in
  let req := Batch_options_at webUrl lName batch in
  let w := add_request req w in
  let xData := sp req in
  let newId := attr (SPFilterNode "z:row" (responseXML xData)) "ows_ID" in
  let response :=
    if String.eqb (Status xData) "success" && js_ge_zero StringToNumber newId
    then JBool true else JBool false in
  (response, w).
End ExternalWriting.

(** A service that routes every request to the site [webUrl]. *)
Definition at_site (webUrl : option string) (req : SPRequest) : SPRequest :=
  {| operation := operation req; async := async req; webURL := webUrl;
     listName := listName req; CAMLViewFields := CAMLViewFields req;
     CAMLQuery := CAMLQuery req; batchCmd := batchCmd req;
     valuepairs := valuepairs req; updates := updates req |}.

(** ** The parameters of the address *)

(** The pattern of getUrlVars (line 498) reads: one or more of "?" and "&";
    then, captured, one or more characters other than "=" and "&"; then
    "="; then, captured, any number of characters other than "&".  It is a
    sequence of pieces: a character, or a class of characters repeated at
    least [min] times, as many times as possible, whose match is captured or
    not.  The classes and the character have no letters: the [i] flag
    changes nothing. *)
Inductive Piece :=
  | Char (c : ascii)
  | Repeat (class : ascii -> bool) (min : nat) (captured : bool).

Definition is_one_of (cs : list ascii) (c : ascii) : bool :=
  existsb (Ascii.eqb c) cs.

Definition url_pattern : list Piece :=
  [Repeat (is_one_of ["?"; "&"]%char) 1 false;
   Repeat (fun c => negb (is_one_of ["="; "&"]%char c)) 1 true;
   Char "="%char;
   Repeat (fun c => negb (is_one_of ["&"]%char c)) 0 true].

(** The length of the longest prefix made of characters of the class. *)
Fixpoint run_length (class : ascii -> bool) (s : string) : nat :=
  match s with
  | String c rest => if class c then S (run_length class rest) else 0
  | EmptyString => 0
  end.

Fixpoint take_chars (n : nat) (s : string) : string :=
  match n, s with
  | S n', String c rest => String c (take_chars n' rest)
  | _, _ => EmptyString
  end.

Fixpoint drop_chars (n : nat) (s : string) : string :=
  match n, s with
  | S n', String c rest => drop_chars n' rest
  | _, _ => s
  end.

(** A repeated class tries its longest run first and gives characters back
    one at a time, down to [min], until the rest of the pattern, [k],
    matches what follows. *)
Fixpoint give_back (k : string -> option (list string * string)) (captured : bool)
    (s : string) (min n : nat) : option (list string * string) :=
  if (n <? min)%nat then None
  else
    match k (drop_chars n s) with
    | Some (captures, rest) =>
        Some (if captured then take_chars n s :: captures else captures, rest)
    | None =>
        match n with
        | S n' => give_back k captured s min n'
        | O => None
        end
    end.

(** A match of the pieces at the start of [s]: the captures, in order, and
    what is left of [s] after the match. *)
Fixpoint match_pieces (ps : list Piece) (s : string) : option (list string * string) :=
  match ps with
  | [] => Some ([], s)
  | Char c :: ps =>
      match s with
      | String c' rest => if Ascii.eqb c c' then match_pieces ps rest else None
      | EmptyString => None
      end
  | Repeat class min captured :: ps =>
      give_back (match_pieces ps) captured s min (run_length class s)
  end.

(** [href.replace(pattern, function (m, key, value) { vars[key] = value; })]:
    the matches are looked for from left to right, each search starting
    where the match before ended, one character further when there is no
    match at a position.  Every turn consumes a character, so [fuel] above
    the length of the string is enough. *)
Fixpoint replace_scan (fuel : nat) (s : string) (vars : gmap string string)
    : gmap string string :=
  match fuel with
  | O => vars
  | S fuel =>
      match match_pieces url_pattern s with
      | Some ([key; value], rest) => replace_scan fuel rest (assign key value vars)
      | Some _ => vars
      | None =>
          match s with
          | String _ rest => replace_scan fuel rest vars
          | EmptyString => vars
          end
      end
  end.

(** getUrlVars (lines 496-502), on the address [window.location.href]. *)
Definition getUrlVars (href : string) : gmap string string :=
  let vars := ∅ in
  replace_scan (S (String.length href)) href vars.

(** The text of a list of parameters, with or without value, the first one
    after [sep] and the next ones after "&". *)
Fixpoint parameters (sep : ascii) (items : list (string * option string)) : string :=
  match items with
  | [] => EmptyString
  | (key, Some value) :: rest =>
      String sep (key +:+ "=" +:+ value +:+ parameters "&" rest)
  | (key, None) :: rest => String sep (key +:+ parameters "&" rest)
  end.

(** The parameters that have a value. *)
Definition valued (items : list (string * option string)) : list (string * string) :=
  omap (fun item => pair item.1 <$> item.2) items.

Fixpoint all_chars (class : ascii -> bool) (s : string) : bool :=
  match s with
  | String c rest => class c && all_chars class rest
  | EmptyString => true
  end.

(** A name that the pattern reads back as it is: not empty, without "=" and
    "&", and not starting with "?". *)
Definition plain_name (key : string) : bool :=
  match key with
  | String c _ =>
      negb (is_one_of ["?"; "&"]%char c)
      && all_chars (fun c => negb (is_one_of ["="; "&"]%char c)) key
  | EmptyString => false
  end.

(** A value that the pattern reads back as it is: without "&". *)
Definition plain_value (value : string) : bool :=
  all_chars (fun c => negb (is_one_of ["&"]%char c)) value.

(** The name of a parameter without value: not empty, without "?", "&" and
    "=". *)
Definition bare_name (key : string) : bool :=
  negb (String.eqb key "")
  && all_chars (fun c => negb (is_one_of ["?"; "&"; "="]%char c)) key.

Definition plain_item (item : string * option string) : bool :=
  match item.2 with
  | Some value => plain_name item.1 && plain_value value
  | None => bare_name item.1
  end.

(** A string that is empty or starts outside the class. *)
Definition stops (class : ascii -> bool) (s : string) : bool :=
  match s with
  | String c _ => negb (class c)
  | EmptyString => true
  end.

(** ** Distinct values of a property *)

(** What [obj[property]] reads on a row object: a value, or one of the
    functions and objects every object inherits, known by its name. *)
Inductive Read :=
  | Value (v : JsVal)
  | Inherited (name : string).

#[global] Instance Read_eq_dec : EqDecision Read.
Proof. solve_decision. Defined.

(** The names an object created by [{}] inherits (ECMAScript 2015, 19.1.3
    and B.2.2). *)
Definition Object_prototype : list string :=
  ["constructor"; "hasOwnProperty"; "isPrototypeOf"; "propertyIsEnumerable";
   "toLocaleString"; "toString"; "valueOf"; "__defineGetter__"; "__defineSetter__";
   "__lookupGetter__"; "__lookupSetter__"; "__proto__"].

(** [obj[property]]: the own property when there is one, else what the
    object inherits under that name, else [undefined]. *)
Definition property_read (obj : ListItem) (property : string) : Read :=
  match obj !! property with
  | Some v => Value v
  | None =>
      if bool_decide (property ∈ Object_prototype) then Inherited property
      else Value JUndefined
  end.

(** [a.indexOf(x)] on an array: the first index whose element is strictly
    equal to [x], or -1.  On these values strict equality is equality. *)
Fixpoint array_indexOf_from (i : Z) (a : list Read) (x : Read) : Z :=
  match a with
  | [] => -1
  | y :: rest => if decide (y = x) then i else array_indexOf_from (i + 1) rest x
  end%Z.

Definition array_indexOf (a : list Read) (x : Read) : Z := array_indexOf_from 0 a x.

(** [s.split("#")[1]]: what stands between the first "#" and the next one,
    [undefined] when [s] has no "#". *)
Definition second_piece (s : string) : JsVal :=
  match String.index 0 "#" s with
  | Some k =>
      let after := drop_chars (S k) s in
      JString (take_chars (run_length (fun c => negb (Ascii.eqb c "#")) after) after)
  | None => JUndefined
  end.

(** [x > y] on values that are strings or [undefined]: the order of strings
    is by character code; with [undefined] on a side the answer is false. *)
Definition js_gt (x y : JsVal) : bool :=
  match x, y with
  | JString a, JString b => match String.compare a b with Gt => true | _ => false end
  | _, _ => false
  end.

(** The function given to [sort] (lines 514-518); [None] is the TypeError
    of [split] on a value that is no string. *)
Definition by_person (a b : Read) : option Z :=
  match a, b with
  | Value (JString a), Value (JString b) =>
      if js_gt (second_piece a) (second_piece b) then Some 1%Z
      else if js_gt (second_piece b) (second_piece a) then Some (-1)%Z
      else Some 0%Z
  | _, _ => None
  end.

Section Sorting.
(** [Array.prototype.sort] is the engine's: which comparisons it makes and
    in which order is not fixed by the language.  [None] is an exception
    thrown by the comparison function. *)
Variable sort : (Read -> Read -> option Z) -> list Read -> option (list Read).

(** responseToArray (lines 507-521). *)
Definition responseToArray (objArr : list ListItem) (property : string) (person : JsVal)
    : option (list Read) :=
  let arrayObtained :=
    foldl (fun arrayObtained obj =>
             if (array_indexOf arrayObtained (property_read obj property) =? -1)%Z
             then arrayObtained ++ [property_read obj property]
             else arrayObtained)
          [] objArr in
  if ToBoolean person then sort by_person arrayObtained
  else Some arrayObtained.
End Sorting.

(** The comparison [sort] makes of two elements (ECMAScript 2015,
    22.1.3.24.1): [undefined] goes last, and the function given to [sort] is
    not called on it. *)
Definition SortCompare (comparefn : Read -> Read -> option Z) (x y : Read) : option Z :=
  match x, y with
  | Value JUndefined, Value JUndefined => Some 0%Z
  | Value JUndefined, _ => Some 1%Z
  | _, Value JUndefined => Some (-1)%Z
  | _, _ => comparefn x y
  end.

(** An engine's sort, by insertion, for running examples. *)
Fixpoint insert_sorted (cmp : Read -> Read -> option Z) (x : Read) (l : list Read)
    : option (list Read) :=
  match l with
  | [] => Some [x]
  | y :: rest =>
      match SortCompare cmp x y with
      | Some c =>
          if (c <=? 0)%Z then Some (x :: y :: rest)
          else match insert_sorted cmp x rest with
               | Some l' => Some (y :: l')
               | None => None
               end
      | None => None
      end
  end.

Fixpoint insertion_sort (cmp : Read -> Read -> option Z) (l : list Read)
    : option (list Read) :=
  match l with
  | [] => Some []
  | x :: rest =>
      match insertion_sort cmp rest with
      | Some sorted => insert_sorted cmp x sorted
      | None => None
      end
  end.

(** The request the handler of [c] posts for the read result [d]: the Stream
    is [d] from eight characters after the index of the marker (lines
    285-301). *)
Definition posted_by (c : OnLoad) (d : string) : AjaxRequest :=
  upload_options (o_urlSite c)
    (upload_envelope (o_path c) (o_urlSite c) (o_lName c) (o_filename c)
       (o_fieldInformation c) (substring_from d (indexOf d ";base64," + 8))).

(** The values of a list without the repetitions, each at the place of its
    first occurrence. *)
Fixpoint keep_first (l : list Read) : list Read :=
  match l with
  | [] => []
  | x :: rest => x :: filter (fun y => y <> x) (keep_first rest)
  end.

(** A list of row objects for examples: people, one of them twice and one
    object without the property. *)
Definition people : list ListItem :=
  [ {[ "Author" := JString "7;#Zoe" ]}; {[ "Author" := JString "3;#Adam" ]};
    {[ "Author" := JString "7;#Zoe" ]}; {[ "Title" := JString "x" ]} ].

(** The values with their names, for the statement about getUrlVars: the
    last value given to a name other than [__proto__]. *)
Definition last_value (key : string) (pairs : list (string * string)) : option string :=
  if String.eqb key "__proto__" then None
  else snd <$> last (filter (fun kv => kv.1 = key) pairs).
(** * Properties *)

(** ** Printing numbers *)

(** Small integers print with all their digits; from two to the 53 on the
    digits stop where the Number is told from its neighbours, and from ten
    to the 21 on the exponent is written. *)
Example ToString_on_samples :
  ToString (JNumber 152) = "152"
  /\ ToString (JNumber (-5)) = "-5"
  /\ ToString (JNumber (2 ^ 53 + 1)) = "9007199254740992"
  /\ ToString (JNumber (2 ^ 64)) = "18446744073709552000"
  /\ ToString (JNumber (10 ^ 21)) = "1e+21"
  /\ ToString (JNumber (2 ^ 70)) = "1.1805916207174113e+21".
Proof. repeat split; vm_compute; reflexivity. Qed.

(** ** The store *)

Lemma alter_as_insert {A} (f : A -> A) (l : list A) (i : nat) (x : A) :
  l !! i = Some x -> alter f i l = <[i := f x]> l.
Proof.
  intros Hx. apply list_eq. intros j.
  rewrite list_lookup_alter, list_lookup_insert.
  destruct (decide (i = j)) as [->|Hne].
  - rewrite Hx. simpl. rewrite decide_True; [done|].
    split; [done|]. by eapply lookup_lt_Some.
  - rewrite decide_False; [done|]. by intros [? _].
Qed.

Lemma array_set_end {A} (a : list (option A)) (v : A) :
  array_set a (length a) v = a ++ [Some v].
Proof.
  unfold array_set. rewrite decide_False by lia.
  by rewrite Nat.sub_diag.
Qed.

Lemma alter_last {A} (f : A -> A) (a : list A) (x : A) :
  alter f (length a) (a ++ [x]) = a ++ [f x].
Proof.
  replace (length a) with (length a + 0) by lia.
  by rewrite alter_app_r.
Qed.

(** The properties of a row are written into the slot the loop has just
    created, one field after the other. *)
Lemma fields_loop (fields : list string) (l : nat) (row : Node) (w : World)
    (a : list (option ListItem)) (o : ListItem) :
  l < length (arrays w) ->
  foldl (fun w item =>
           update_array l
             (alter (fmap (assign item (attr [row] ("ows_" +:+ item)))) (length a)) w)
        (set_arrays (<[l := a ++ [Some o]]> (arrays w)) w) fields
  = set_arrays
      (<[l := a ++ [Some (foldl (fun o item => assign item (attr [row] ("ows_" +:+ item)) o)
                                o fields)]]> (arrays w)) w.
Proof.
  intros Hl. revert o.
  induction fields as [|item fields IH]; intros o; [done|].
  simpl. rewrite <- IH. f_equal.
  unfold update_array, set_arrays. simpl. f_equal.
  erewrite alter_as_insert by (by apply list_lookup_insert_eq).
  rewrite list_insert_insert_eq. by rewrite alter_last.
Qed.

(** One turn of the loop over the rows appends the object of the row. *)
Lemma each_row_appends (fields : list string) (l : nat) (w : World)
    (a : list (option ListItem)) (row : Node) :
  arrays w !! l = Some a ->
  each_row fields l (w, length a) row
  = (set_arrays (<[l := a ++ [Some (row_object fields row)]]> (arrays w)) w,
     S (length a)).
Proof.
  intros Ha. unfold each_row. f_equal.
  assert (l < length (arrays w)) as Hl by (by eapply lookup_lt_Some).
  unfold update_array at 2.
  erewrite alter_as_insert by exact Ha.
  rewrite array_set_end.
  by rewrite (fields_loop fields l row w a ∅ Hl).
Qed.

(** The whole loop appends the objects of the rows, in document order, and
    touches nothing else. *)
Lemma rows_loop (fields : list string) (l : nat) (rows : list Node) (w : World)
    (a : list (option ListItem)) :
  arrays w !! l = Some a ->
  foldl (each_row fields l) (w, length a) rows
  = (set_arrays (<[l := a ++ (Some <$> (row_object fields <$> rows))]> (arrays w)) w,
     length a + length rows).
Proof.
  revert w a. induction rows as [|row rows IH]; intros w a Ha.
  - simpl. rewrite app_nil_r, Nat.add_0_r. f_equal.
    rewrite list_insert_id by done. by destruct w.
  - cbn [foldl]. rewrite (each_row_appends _ _ _ _ _ Ha).
    replace (S (length a)) with (length (a ++ [Some (row_object fields row)]))
      by (rewrite length_app; simpl; lia).
    rewrite IH.
    + f_equal.
      * unfold set_arrays. simpl. f_equal.
        rewrite list_insert_insert_eq. by rewrite <- app_assoc.
      * rewrite length_app. simpl. lia.
    + simpl. apply list_lookup_insert_eq. by eapply lookup_lt_Some.
Qed.

(** What the completion function does to a world in which its array holds
    [a] and its counter stands at the end of it: the parsed rows are
    appended, and the callback is called when the status is "success", the
    global [isAsync] is true at that moment and a callback was given. *)
Lemma completefunc_spec (c : ListCompletion) (xData : Response) (w : World)
    (a : list (option ListItem)) :
  arrays w !! c_listItems c = Some a ->
  c_i c = length a ->
  completefunc c xData w =
    let items := a ++ (Some <$> parsed_rows (c_fields c) xData) in
    let w' := set_arrays (<[c_listItems c := items]> (arrays w)) w in
    if String.eqb (Status xData) "success" && global_truthy "isAsync" w then
      match c_callback c with
      | Some cb => add_event (CallList cb (c_listItems c) items) w'
      | None => w'
      end
    else w'.
Proof.
  intros Ha Hi. unfold completefunc, parsed_rows.
  destruct (String.eqb (Status xData) "success") eqn:Hs; simpl.
  - rewrite Hi, (rows_loop _ _ _ _ _ Ha).
    assert (c_listItems c < length (arrays w)) as Hl by (by eapply lookup_lt_Some).
    change (global_truthy "isAsync" (set_arrays ?x w)) with (global_truthy "isAsync" w).
    destruct (global_truthy "isAsync" w); [|done].
    destruct (c_callback c); [|done].
    unfold array_at. simpl. by rewrite list_lookup_insert_eq.
  - rewrite app_nil_r, list_insert_id by done. by destruct w.
Qed.

Lemma insert_last {A} (l : list A) (x y : A) :
  <[length l := x]> (l ++ [y]) = l ++ [x].
Proof.
  replace (length l) with (length l + 0) by lia.
  by rewrite insert_app_r.
Qed.

(** Reading a global through the updates of the other parts of the world. *)
Lemma global_truthy_set_global (x : string) (v : JsVal) (w : World) :
  global_truthy x (set_global x (GPrim v) w) = ToBoolean v.
Proof. unfold global_truthy. cbn [globals set_global]. by rewrite lookup_insert_eq. Qed.

Lemma global_truthy_set_arrays (x : string) a (w : World) :
  global_truthy x (set_arrays a w) = global_truthy x w.
Proof. done. Qed.

Lemma global_truthy_set_pending (x : string) p (w : World) :
  global_truthy x (set_pending p w) = global_truthy x w.
Proof. done. Qed.

Lemma global_truthy_add_request (x : string) r (w : World) :
  global_truthy x (add_request r w) = global_truthy x w.
Proof. done. Qed.

Lemma global_truthy_add_event (x : string) e (w : World) :
  global_truthy x (add_event e w) = global_truthy x w.
Proof. done. Qed.

Create Rewrite HintDb world.
#[local] Hint Rewrite global_truthy_set_arrays global_truthy_set_pending
  global_truthy_add_request global_truthy_add_event global_truthy_set_global : world.

(** ** getListItems and getExternalListItems, call by call *)

(** A call without callback is synchronous: when it returns the request
    has been sent, the rows of the answer are in the new array, and
    [isAsync] is false. *)
Lemma getListItems_sync (sp : SPRequest -> Response) (lName : string)
    (fields : list string) (query : option string) (w : World) :
  let req := GetListItems_options false None lName (viewFields_of fields)
               (Some (sent_query query)) in
  let items := parsed_rows fields (sp req) in
  getListItems sp lName fields query None w =
    (match items with
     | [] => RBool false
     | [o] => RObject o
     | _ => RArray (length (arrays w))
     end,
     add_request req
       (set_arrays (arrays w ++ [Some <$> items])
          (set_global "isAsync" (GPrim (JBool false)) w))).
Proof.
  intros req items. unfold getListItems, new_array, SPServices.
  cbn [fst snd]. autorewrite with world. cbn [ToBoolean].
  change (GetListItems_options false None lName (viewFields_of fields) _) with req.
  cbn [async req GetListItems_options].
  erewrite completefunc_spec with (a := []);
    [| cbn; apply list_lookup_middle; done | done].
  cbn [c_listItems c_fields c_callback app].
  autorewrite with world. cbn [ToBoolean]. rewrite andb_false_r.
  fold items. cbn zeta.
  unfold array_at. cbn [arrays set_arrays add_request set_global].
  rewrite insert_last, list_lookup_middle by done. cbn [default].
  clearbody items. destruct items as [|o [|o' rest]]; reflexivity.
Qed.

(** A call with a callback is asynchronous: it returns [false] at once,
    leaving an empty array, the request in flight and [isAsync] true. *)
Lemma getListItems_async (sp : SPRequest -> Response) (lName : string)
    (fields : list string) (query : option string) (cb : Callback) (w : World) :
  getListItems sp lName fields query (Some cb) w =
    (RBool false,
     set_pending
       (pending w ++ [Some {| c_fields := fields; c_listItems := length (arrays w);
                              c_i := 0; c_callback := Some cb |}])
       (add_request
          (GetListItems_options true None lName (viewFields_of fields)
             (Some (sent_query query)))
          (set_arrays (arrays w ++ [[]])
             (set_global "isAsync" (GPrim (JBool true)) w)))).
Proof.
  unfold getListItems, new_array, SPServices.
  cbn [fst snd]. autorewrite with world. cbn [ToBoolean async GetListItems_options].
  unfold array_at. cbn [arrays set_arrays add_request set_global set_pending].
  rewrite list_lookup_middle by done. reflexivity.
Qed.

Lemma getExternalListItems_sync (sp : SPRequest -> Response) (lName : string)
    (query : option string) (fields : list string) (webUrl : option string) (w : World) :
  let req := GetListItems_options false webUrl lName (viewFields_of fields) query in
  getExternalListItems sp lName query fields webUrl None w =
    (RArray (length (arrays w)),
     add_request req
       (set_arrays (arrays w ++ [Some <$> parsed_rows fields (sp req)])
          (set_global "isAsync" (GPrim (JBool false)) w))).
Proof.
  intros req. unfold getExternalListItems, new_array, SPServices.
  cbn [fst snd]. autorewrite with world. cbn [ToBoolean].
  change (GetListItems_options false webUrl lName (viewFields_of fields) query) with req.
  cbn [async req GetListItems_options].
  erewrite completefunc_spec with (a := []);
    [| cbn; apply list_lookup_middle; done | done].
  cbn [c_listItems c_fields c_callback app].
  autorewrite with world. cbn [ToBoolean]. rewrite andb_false_r.
  cbn zeta. cbn [arrays set_arrays add_request set_global].
  rewrite insert_last. reflexivity.
Qed.

Lemma getExternalListItems_async (sp : SPRequest -> Response) (lName : string)
    (query : option string) (fields : list string) (webUrl : option string)
    (cb : Callback) (w : World) :
  getExternalListItems sp lName query fields webUrl (Some cb) w =
    (RArray (length (arrays w)),
     set_pending
       (pending w ++ [Some {| c_fields := fields; c_listItems := length (arrays w);
                              c_i := 0; c_callback := Some cb |}])
       (add_request
          (GetListItems_options true webUrl lName (viewFields_of fields) query)
          (set_arrays (arrays w ++ [[]])
             (set_global "isAsync" (GPrim (JBool true)) w)))).
Proof.
  unfold getExternalListItems, new_array, SPServices.
  cbn [fst snd]. autorewrite with world. cbn [ToBoolean async GetListItems_options].
  reflexivity.
Qed.

(** The answer to a request in flight whose array is still empty: the rows
    are parsed into the array, and the callback is called exactly when the
    status is "success" and [isAsync] is true at that moment. *)
Lemma complete_spec (k : nat) (xData : Response) (w : World)
    (fields : list string) (l : nat) (cb : Callback) :
  pending w !! k = Some (Some {| c_fields := fields; c_listItems := l;
                                 c_i := 0; c_callback := Some cb |}) ->
  arrays w !! l = Some [] ->
  let items := Some <$> parsed_rows fields xData in
  let w' := set_arrays (<[l := items]> (arrays w))
              (set_pending (<[k := None]> (pending w)) w) in
  complete k xData w =
    if String.eqb (Status xData) "success" && global_truthy "isAsync" w
    then add_event (CallList cb l items) w'
    else w'.
Proof.
  intros Hk Hl. unfold complete. rewrite Hk.
  erewrite completefunc_spec with (a := []); [| exact Hl | done].
  cbn [c_listItems c_fields c_callback app]. autorewrite with world.
  reflexivity.
Qed.

(** ** The claims about reading *)

(** C1, as the code has it: a call of getListItems without callback returns
    the boolean [false] when no row was parsed (no row in the answer, or a
    status other than "success"), the row object itself when exactly one
    row was parsed, and the array of all the row objects, in document order,
    when more than one was parsed. *)
Theorem getListItems_sync_result (sp : SPRequest -> Response) (lName : string)
    (fields : list string) (query : option string) (w : World) :
  let xData := sp (GetListItems_options false None lName (viewFields_of fields)
                     (Some (sent_query query))) in
  let r := getListItems sp lName fields query None w in
  match parsed_rows fields xData with
  | [] => r.1 = RBool false
  | [o] => r.1 = RObject o
  | items => exists l, r.1 = RArray l /\ array_at l r.2 = Some <$> items
  end.
Proof.
  intros xData r. subst r. rewrite getListItems_sync. fold xData.
  destruct (parsed_rows fields xData) as [|o [|o' rest]]; cbn [fst snd]; [done|done|].
  exists (length (arrays w)). split; [done|].
  unfold array_at. cbn [arrays add_request set_arrays].
  by rewrite list_lookup_middle.
Qed.

(** C1, the claim as stated fails: on an answer without rows the call
    without callback does not return a collection, empty or not. *)
Lemma getListItems_sync_no_rows_not_a_collection :
  let r := getListItems (fun _ => no_rows) "Employees" ["ID"; "FirstName"] None None (page ∅) in
  parsed_rows ["ID"; "FirstName"] no_rows = []
  /\ r.1 = RBool false
  /\ ~ (exists l, r.1 = RArray l /\ array_at l r.2 = []).
Proof.
  cbv zeta. split; [reflexivity|]. split; [reflexivity|].
  intros [l [Hl _]]. rewrite getListItems_sync in Hl. discriminate Hl.
Qed.

(** C6, as the code has it: getListItems forwards a supplied, non-empty
    query unmodified as the CAMLQuery of the request it sends, and replaces
    an absent query and an empty one by "<Query></Query>"; this with or
    without callback. *)
Theorem getListItems_query_forwarded (sp : SPRequest -> Response) (lName : string)
    (fields : list string) (query : option string) (callback : option Callback)
    (w : World) :
  exists req,
    requests (getListItems sp lName fields query callback w).2 = requests w ++ [req]
    /\ operation req = "GetListItems"
    /\ CAMLQuery req =
         Some (match query with
               | Some q => if decide (q = "") then "<Query></Query>" else q
               | None => "<Query></Query>"
               end).
Proof.
  assert (sent_query query
          = match query with
            | Some q => if decide (q = "") then "<Query></Query>" else q
            | None => "<Query></Query>"
            end) as Hq.
  { destruct query as [q|]; [|done]. unfold sent_query. cbn [or_undefined ToBoolean ToString].
    destruct (String.eqb_spec q ""); case_decide; done. }
  destruct callback as [cb|].
  - rewrite getListItems_async. eexists. split; [reflexivity|].
    split; [done|]. cbn. by rewrite Hq.
  - rewrite getListItems_sync. eexists. split; [reflexivity|].
    split; [done|]. cbn. by rewrite Hq.
Qed.

(** C6, the claim as stated fails: an empty query that was supplied is not
    forwarded; the request carries the default query. *)
Lemma getListItems_empty_query_replaced :
  let w := (getListItems (fun _ => no_rows) "Employees" ["ID"] (Some "") None (page ∅)).2 in
  CAMLQuery <$> requests w = [Some "<Query></Query>"]
  /\ CAMLQuery <$> requests w <> [Some ""].
Proof. cbv zeta. rewrite getListItems_sync. split; [reflexivity|discriminate]. Qed.

(** C9: getExternalListItems returns the array itself on every call, never
    [false] and never a row object.  Without callback the array holds, when
    the call returns, the rows parsed from the answer: none on a status
    other than "success" or an answer without rows, one element for one row.
    With a callback the array is empty when the call returns, and it is the
    same array that holds the parsed rows once the answer has arrived. *)
Theorem getExternalListItems_returns_array (sp : SPRequest -> Response)
    (lName : string) (query : option string) (fields : list string)
    (webUrl : option string) (callback : option Callback) (w : World) :
  let r := getExternalListItems sp lName query fields webUrl callback w in
  let l := length (arrays w) in
  r.1 = RArray l
  /\ match callback with
     | None =>
         array_at l r.2
         = Some <$> parsed_rows fields
                      (sp (GetListItems_options false webUrl lName (viewFields_of fields) query))
     | Some cb =>
         array_at l r.2 = []
         /\ forall xData,
              array_at l (complete (length (pending w)) xData r.2)
              = Some <$> parsed_rows fields xData
     end.
Proof.
  intros r l. subst r l. destruct callback as [cb|].
  - rewrite getExternalListItems_async. cbn [fst snd]. split; [done|].
    split.
    + unfold array_at. cbn [arrays set_arrays set_pending add_request set_global].
      by rewrite list_lookup_middle.
    + intros xData.
      erewrite complete_spec;
        [| cbn; by apply list_lookup_middle | cbn; by apply list_lookup_middle].
      cbv zeta.
      destruct (_ && _);
        unfold array_at;
        cbn [arrays set_arrays set_pending add_request set_global add_event];
        rewrite insert_last, list_lookup_middle by done; done.
  - rewrite getExternalListItems_sync. cbn [fst snd]. split; [done|].
    unfold array_at. cbn [arrays set_arrays set_pending add_request set_global].
    by rewrite list_lookup_middle.
Qed.

Lemma assign_dom {V : Type} (key : string) (value : V) (obj : gmap string V) :
  dom (assign key value obj) = dom obj ∪ ({[key]} ∖ {["__proto__"]}).
Proof.
  unfold assign. destruct (String.eqb_spec key "__proto__") as [->|Hne].
  - set_solver.
  - rewrite dom_insert_L. set_solver.
Qed.

(** The keys of a row object are the requested fields, [__proto__] apart:
    the assignment under that name leaves the object without such a key. *)
Lemma row_object_dom (fields : list string) (row : Node) :
  dom (row_object fields row) = list_to_set fields ∖ {["__proto__"]}.
Proof.
  unfold row_object.
  enough (forall o : ListItem,
            dom (foldl (fun o item => assign item (attr [row] ("ows_" +:+ item)) o) o fields)
            = dom o ∪ (list_to_set fields ∖ {["__proto__"]})) as H.
  { rewrite H, dom_empty_L. set_solver. }
  induction fields as [|item fields IH]; intros o; simpl.
  - set_solver.
  - rewrite IH, assign_dom. set_solver.
Qed.

(** The value of each key is the attribute of the row with the [ows_]
    prefix, [undefined] when the row has no such attribute. *)
Lemma row_object_lookup (fields : list string) (row : Node) (item : string) :
  item ∈ fields -> item <> "__proto__" ->
  row_object fields row !! item = Some (attr [row] ("ows_" +:+ item)).
Proof.
  intros Hin Hitem. revert Hin. unfold row_object.
  enough (forall o : ListItem,
            (item ∈ fields \/ o !! item = Some (attr [row] ("ows_" +:+ item))) ->
            foldl (fun o item => assign item (attr [row] ("ows_" +:+ item)) o) o fields !! item
            = Some (attr [row] ("ows_" +:+ item))) as H by (intros; apply H; by left).
  induction fields as [|f fields IH]; intros o [Hin|Ho]; simpl.
  - by apply elem_of_nil in Hin.
  - done.
  - apply IH. destruct (decide (f = item)) as [->|Hne].
    + right. unfold assign. destruct (String.eqb_spec item "__proto__"); [done|].
      by rewrite lookup_insert_eq.
    + left. apply elem_of_cons in Hin as [->|]; done.
  - apply IH. right. unfold assign. destruct (String.eqb f "__proto__"); [done|].
    destruct (decide (f = item)) as [->|Hne].
    + by rewrite lookup_insert_eq.
    + by rewrite lookup_insert_ne.
Qed.

(** A requested field named [__proto__] leaves no key, and reading it gives
    what every object inherits under that name. *)
Example row_object_on_proto :
  let o := row_object ["ID"; "__proto__"]
             (Element "z:row" [("ows_ID", "7"); ("ows___proto__", "x")] []) in
  o = {[ "ID" := JString "7" ]}
  /\ property_read o "__proto__" = Inherited "__proto__".
Proof. split; vm_compute; reflexivity. Qed.

(** When nothing assigns [isAsync] between the call and the answer, the
    callback given to getListItems is called once, with the array of the
    parsed rows, if the status is "success", and not at all otherwise. *)
Lemma getListItems_callback_undisturbed (sp : SPRequest -> Response) (lName : string)
    (fields : list string) (query : option string) (cb : Callback) (w : World)
    (xData : Response) :
  let r := getListItems sp lName fields query (Some cb) w in
  log (complete (length (pending w)) xData r.2)
  = log w ++ (if String.eqb (Status xData) "success"
              then [CallList cb (length (arrays w)) (Some <$> parsed_rows fields xData)]
              else []).
Proof.
  cbv zeta. rewrite getListItems_async. cbn [snd].
  erewrite complete_spec;
    [| cbn; by apply list_lookup_middle | cbn; by apply list_lookup_middle].
  cbv zeta. autorewrite with world. cbn [ToBoolean]. rewrite andb_true_r.
  destruct (String.eqb (Status xData) "success"); cbn; [done|by rewrite app_nil_r].
Qed.

(** C4 at the failing scenario: the callback was supplied, the answer
    arrived with status "success" and its row was parsed into the array,
    the request is no longer in flight, and the callback was never called.
    The second read assigned [false] to the global [isAsync], which the
    completion function of the first read tests. *)
Theorem getListItems_callback_lost :
  Status one_row = "success"
  /\ array_at 0 interleaved_reads
     = [Some (row_object ["ID"; "FirstName"]
                (Element "z:row" [("ows_ID", "7"); ("ows_FirstName", "John")] []))]
  /\ pending interleaved_reads = [None]
  /\ globals interleaved_reads !! "isAsync" = Some (GPrim (JBool false))
  /\ log interleaved_reads = []
  /\ log undisturbed_read
     = [CallList "showEmployees" 0
          [Some (row_object ["ID"; "FirstName"]
                   (Element "z:row" [("ows_ID", "7"); ("ows_FirstName", "John")] []))]].
Proof. repeat split; vm_compute; reflexivity. Qed.

(** ** Strings *)

Lemma append_assoc (a b c : string) : (a +:+ b) +:+ c = a +:+ (b +:+ c).
Proof.
  induction a as [|x a IH]; [done|].
  change (String x ((a +:+ b) +:+ c) = String x (a +:+ b +:+ c)). by rewrite IH.
Qed.

Lemma length_append (a b : string) :
  String.length (a +:+ b) = String.length a + String.length b.
Proof.
  induction a as [|x a IH]; [done|].
  change (S (String.length (a +:+ b)) = S (String.length a + String.length b)).
  by rewrite IH.
Qed.

Lemma substring_all (s : string) : substring 0 (String.length s) s = s.
Proof. induction s as [|x s IH]; simpl; [done|by f_equal]. Qed.

Lemma substring_drop (a b : string) :
  substring (String.length a) (String.length b) (a +:+ b) = b.
Proof. induction a as [|x a IH]; [apply substring_all|exact IH]. Qed.

Lemma substring_from_append (a b : string) :
  substring_from (a +:+ b) (Z.of_nat (String.length a)) = b.
Proof.
  unfold substring_from. rewrite length_append.
  replace (Z.to_nat _) with (String.length a) by lia.
  replace (String.length a + String.length b - String.length a) with (String.length b) by lia.
  apply substring_drop.
Qed.

Lemma substring_0_split (p s : string) :
  substring 0 (String.length p) s = p -> exists post, s = p +:+ post.
Proof.
  revert s. induction p as [|x p IH]; intros s H.
  - by exists s.
  - destruct s as [|y s]; simpl in H; [discriminate|].
    injection H as -> H. destruct (IH s H) as [post ->]. by exists post.
Qed.

(** A string in which [pat] occurs splits at the first occurrence. *)
Lemma index_split (pat s : string) (k : nat) :
  index 0 pat s = Some k ->
  exists pre post, s = pre +:+ pat +:+ post /\ String.length pre = k.
Proof.
  revert k. induction s as [|b s IH]; intros k H.
  - simpl in H. destruct pat; [|discriminate]. injection H as <-.
    by exists "", "".
  - change (index 0 pat (String b s))
      with (if String.prefix pat (String b s) then Some 0
            else match index 0 pat s with Some n => Some (S n) | None => None end) in H.
    destruct (String.prefix pat (String b s)) eqn:Hp.
    + injection H as <-. apply String.prefix_correct, substring_0_split in Hp as [post ->].
      by exists "", post.
    + destruct (index 0 pat s) as [k'|] eqn:Hk; [|discriminate].
      injection H as <-. destruct (IH k' eq_refl) as (pre & post & -> & <-).
      by exists (String b pre), post.
Qed.

(** ** uploadFile *)

(** uploadFile creates a reader that holds the file name and the handler,
    starts the read and leaves the global [filereader] on that reader. *)
Lemma uploadFile_spec (urlSite lName idInputFile : string) (fields : list (list JsVal))
    (filename file : string) (successCallback errorCallback : option Callback)
    (w : World) :
  uploadFile urlSite lName idInputFile fields filename file successCallback errorCallback w
  = set_global "filereader" (GReader (length (readers w)))
      (set_readers
         (readers w ++
          [{| result := None; r_filename := JString filename;
              onload := Some {| o_path := or_undefined (inputs w !! idInputFile);
                                o_urlSite := urlSite; o_lName := lName;
                                o_filename := filename;
                                o_fieldInformation := fieldInformation_of fields;
                                o_successCallback := successCallback;
                                o_errorCallback := errorCallback |};
              source := Some file |}]) w).
Proof.
  unfold uploadFile, on_filereader.
  cbn [globals readers set_global set_readers].
  repeat (rewrite lookup_insert_eq; cbn [globals readers set_global set_readers];
          rewrite alter_last).
  reflexivity.
Qed.

(** When the global [filereader] still names the reader of the call at the
    time its file has been read, and the file reads as a data URL with the
    marker, the handler posts one copy request: its Stream is what follows
    the first marker, its destination is urlSite/lName/filename. *)
Lemma uploadFile_undisturbed (urlSite lName idInputFile : string)
    (fields : list (list JsVal)) (filename file : string)
    (successCallback errorCallback : option Callback) (w : World) :
  (0 <= indexOf file ";base64,")%Z ->
  exists pre post,
    file = pre +:+ ";base64," +:+ post
    /\ indexOf file ";base64," = Z.of_nat (String.length pre)
    /\ posts (loaded (length (readers w))
                (uploadFile urlSite lName idInputFile fields filename file
                   successCallback errorCallback w))
       = posts w ++
         [upload_options urlSite
            (upload_envelope (or_undefined (inputs w !! idInputFile)) urlSite lName filename
               (fieldInformation_of fields) post)].
Proof.
  intros Hm. unfold indexOf in Hm |- *.
  destruct (index 0 ";base64," file) as [k|] eqn:Hk; [|lia].
  destruct (index_split _ _ _ Hk) as (pre & post & -> & <-).
  exists pre, post. split; [done|]. split; [done|].
  rewrite uploadFile_spec. unfold loaded.
  cbn [globals readers set_global set_readers].
  rewrite list_lookup_middle by done. cbn [source onload r_filename].
  unfold onload_handler. cbn [globals readers set_global set_readers].
  rewrite lookup_insert_eq.
  rewrite insert_last.
  rewrite list_lookup_middle by done. cbn [fmap option_fmap option_map result].
  unfold indexOf. rewrite Hk.
  replace (Z.of_nat (String.length pre) + 8)%Z
    with (Z.of_nat (String.length (pre +:+ ";base64,")))
    by (rewrite length_append; simpl; lia).
  rewrite <- append_assoc, substring_from_append.
  reflexivity.
Qed.

Lemma uploadFile_undisturbed_witness :
  let w := page {[ "inputA" := "a.txt" ]} in
  let file := "data:text/plain;base64,QUFB" in
  exists pre post,
    file = pre +:+ ";base64," +:+ post
    /\ indexOf file ";base64," = Z.of_nat (String.length pre)
    /\ posts (loaded (length (readers w))
                (uploadFile "http://example.us/site" "Docs" "inputA" [] "a.txt" file
                   None None w))
       = posts w ++
         [upload_options "http://example.us/site"
            (upload_envelope (or_undefined (inputs w !! "inputA")) "http://example.us/site"
               "Docs" "a.txt" (fieldInformation_of []) post)].
Proof.
  intros w file.
  refine (uploadFile_undisturbed "http://example.us/site" "Docs" "inputA" [] "a.txt"
            file None None w _).
  vm_compute. discriminate.
Defined.

(** C7 at the failing scenario.  Both files read as data URLs with the
    marker.  When the second file is read first, two requests are posted:
    the one for b.txt, and one whose destination is a.txt and whose Stream
    is the content of b.txt.  When the first file is read first, its handler
    finds the result of the other reader still null and posts nothing: the
    only request is the one for b.txt.  The handler reads the global
    [filereader], which the second call of uploadFile assigned. *)
Theorem uploadFile_stream_of_other_file :
  let site := "http://example.us/site" in
  posts (loaded 0 (loaded 1 two_uploads))
  = [upload_options site (upload_envelope (JString "b.txt") site "Docs" "b.txt" "" "QkJC");
     upload_options site (upload_envelope (JString "a.txt") site "Docs" "a.txt" "" "QkJC")]
  /\ posts (loaded 1 (loaded 0 two_uploads))
     = [upload_options site (upload_envelope (JString "b.txt") site "Docs" "b.txt" "" "QkJC")]
  /\ globals (loaded 0 two_uploads) !! "data" = Some (GPrim JNull).
Proof. repeat split; vm_compute; reflexivity. Qed.

(** ** deleteFile *)

(** The loop over the ErrorCode nodes leaves in [response] the verdict of
    the last node, and the initial value when there is none. *)
Lemma each_ErrorCode_last (nodes : list Node) (response : bool) (w : World) :
  (foldl each_ErrorCode (response, w) nodes).1
  = from_option (fun this => String.eqb (text this) "0x00000000") response (last nodes).
Proof.
  revert response w. induction nodes as [|this nodes IH]; intros response w; [done|].
  cbn [foldl].
  destruct (each_ErrorCode (response, w) this) as [b w'] eqn:He.
  assert (b = String.eqb (text this) "0x00000000") as ->.
  { unfold each_ErrorCode in He.
    destruct (String.eqb (text this) "0x00000000"); by injection He as <- _. }
  rewrite IH, last_cons. by destruct (last nodes).
Qed.

Lemma deleteFile_result (sp : SPRequest -> Response) (lName filePath : string)
    (id : JsVal) (w : World) :
  (deleteFile sp lName filePath id w).1
  = from_option (fun this => String.eqb (text this) "0x00000000") false
      (last (SPFilterNode "ErrorCode"
               (responseXML (sp (Batch_options lName (deleteFile_batch filePath id)))))).
Proof. unfold deleteFile. apply each_ErrorCode_last. Qed.

(** C2: deleteFile returns [true] exactly when the ErrorCode embedded in
    the answer is '0x00000000' and [false] for any other code; it returns
    [false] when the transport delivered no document; and the status is not
    consulted: transports that deliver the same document, under whatever
    status, get the same result. *)
Theorem deleteFile_success_predicate (sp : SPRequest -> Response)
    (lName filePath : string) (id : JsVal) (w : World) :
  let req := Batch_options lName (deleteFile_batch filePath id) in
  let r := (deleteFile sp lName filePath id w).1 in
  (forall this, SPFilterNode "ErrorCode" (responseXML (sp req)) = [this] ->
                (r = true <-> text this = "0x00000000")
                /\ (text this <> "0x00000000" -> r = false))
  /\ (responseXML (sp req) = None -> r = false)
  /\ (forall sp' : SPRequest -> Response,
        responseXML (sp' req) = responseXML (sp req) ->
        (deleteFile sp' lName filePath id w).1 = r).
Proof.
  intros req r. subst r. rewrite deleteFile_result. fold req.
  split; [|split].
  - intros this ->. cbn [last from_option].
    destruct (String.eqb_spec (text this) "0x00000000"); naive_solver.
  - intros ->. done.
  - intros sp' Heq. rewrite deleteFile_result. fold req. by rewrite Heq.
Qed.

Lemma deleteFile_success_predicate_witness :
  Status error_status_no_error_code <> "success"
  /\ (deleteFile (fun _ => error_status_no_error_code) "Docs"
        "http://example.us/site/Docs/JohnDoe.txt" (JNumber 12) (page ∅)).1 = true
  /\ (deleteFile (fun _ => no_document) "Docs"
        "http://example.us/site/Docs/JohnDoe.txt" (JNumber 12) (page ∅)).1 = false.
Proof.
  split; [discriminate|]. split.
  - apply (proj1 (deleteFile_success_predicate (fun _ => error_status_no_error_code) "Docs"
                    "http://example.us/site/Docs/JohnDoe.txt" (JNumber 12) (page ∅))
             (ErrorCode "0x00000000") eq_refl).
    reflexivity.
  - apply (proj1 (proj2 (deleteFile_success_predicate (fun _ => no_document) "Docs"
                           "http://example.us/site/Docs/JohnDoe.txt" (JNumber 12) (page ∅)))).
    reflexivity.
Defined.

(** C10: without any ErrorCode node in the answer deleteFile returns
    [false], whatever the status; with several, the result is the verdict of
    the last one alone. *)
Theorem deleteFile_last_ErrorCode (sp : SPRequest -> Response)
    (lName filePath : string) (id : JsVal) (w : World) :
  let req := Batch_options lName (deleteFile_batch filePath id) in
  let r := (deleteFile sp lName filePath id w).1 in
  (SPFilterNode "ErrorCode" (responseXML (sp req)) = [] -> r = false)
  /\ (forall earlier this,
        SPFilterNode "ErrorCode" (responseXML (sp req)) = earlier ++ [this] ->
        r = String.eqb (text this) "0x00000000").
Proof.
  intros req r. subst r. rewrite deleteFile_result. fold req. split.
  - intros ->. done.
  - intros earlier this ->. by rewrite last_snoc.
Qed.

Lemma deleteFile_last_ErrorCode_witness :
  (deleteFile (fun _ => failed_then_deleted) "Docs" "JohnDoe.txt" (JNumber 12) (page ∅)).1 = true
  /\ (deleteFile (fun _ => deleted_then_failed) "Docs" "JohnDoe.txt" (JNumber 12) (page ∅)).1 = false
  /\ (deleteFile (fun _ => no_rows) "Docs" "JohnDoe.txt" (JNumber 12) (page ∅)).1 = false.
Proof.
  split; [|split].
  - apply (proj2 (deleteFile_last_ErrorCode (fun _ => failed_then_deleted) "Docs"
                    "JohnDoe.txt" (JNumber 12) (page ∅))
             [ErrorCode "0x81020030"] (ErrorCode "0x00000000") eq_refl).
  - apply (proj2 (deleteFile_last_ErrorCode (fun _ => deleted_then_failed) "Docs"
                    "JohnDoe.txt" (JNumber 12) (page ∅))
             [ErrorCode "0x00000000"] (ErrorCode "0x81020030") eq_refl).
  - apply (proj1 (deleteFile_last_ErrorCode (fun _ => no_rows) "Docs"
                    "JohnDoe.txt" (JNumber 12) (page ∅)) eq_refl).
Defined.

(** ** createNewListItem and updateListItem *)

(** The test of the completion functions, [Status == "success" && newId >= 0],
    against the predicate of the specification. *)
Lemma success_test (StringToNumber : string -> Number) (xData : Response) :
  String.eqb (Status xData) "success"
  && js_ge_zero StringToNumber (attr (SPFilterNode "z:row" (responseXML xData)) "ows_ID") = true
  <-> spec_success StringToNumber xData.
Proof.
  unfold spec_success. rewrite andb_true_iff, String.eqb_eq.
  apply and_iff_compat_l.
  destruct (SPFilterNode "z:row" (responseXML xData)) as [|row rest] eqn:Hrows.
  - cbn. split; [discriminate|]. by intros (? & ? & ? & ? & _).
  - change (attr (row :: rest) "ows_ID") with (attr [row] "ows_ID").
    unfold js_ge_zero. split.
    + intros Hge. destruct (attr [row] "ows_ID") as [| | | |id] eqn:Hattr.
      * discriminate Hge.
      * destruct row as [|? attrs ?]; cbn in Hattr; [done|].
        by destruct (assoc "ows_ID" attrs).
      * destruct row as [|? attrs ?]; cbn in Hattr; [done|].
        by destruct (assoc "ows_ID" attrs).
      * destruct row as [|? attrs ?]; cbn in Hattr; [done|].
        by destruct (assoc "ows_ID" attrs).
      * by exists row, rest, id.
    + intros (row' & rest' & id & [= <- <-] & -> & Hge). exact Hge.
Qed.

(** The cases the claim lists as failures do fail. *)
Lemma spec_success_failures (StringToNumber : string -> Number) (xData : Response) :
  (Status xData <> "success" -> ~ spec_success StringToNumber xData)
  /\ (SPFilterNode "z:row" (responseXML xData) = [] -> ~ spec_success StringToNumber xData)
  /\ (attr (SPFilterNode "z:row" (responseXML xData)) "ows_ID" = JUndefined ->
      ~ spec_success StringToNumber xData)
  /\ (forall id, attr (SPFilterNode "z:row" (responseXML xData)) "ows_ID" = JString id ->
                 ge_zero (StringToNumber id) = false -> ~ spec_success StringToNumber xData).
Proof.
  unfold spec_success. repeat split.
  - naive_solver.
  - intros -> (_ & ? & ? & ? & ? & _). done.
  - intros Hu (_ & row & rest & id & Hr & Ha & _). rewrite Hr in Hu.
    change (attr (row :: rest) "ows_ID") with (attr [row] "ows_ID") in Hu. congruence.
  - intros id Hi Hneg (_ & row & rest & id' & Hr & Ha & Hge). rewrite Hr in Hi.
    change (attr (row :: rest) "ows_ID") with (attr [row] "ows_ID") in Hi. congruence.
Qed.

(** C3: createNewListItem returns [true] if and only if the status is
    "success" and the response holds a row identifier that is not negative,
    and [false] in every other case: a status other than "success", no row,
    a row without identifier, a negative identifier.  updateListItem returns
    the booleans [true] and [false] under the same predicate. *)
Theorem create_update_success_predicate (StringToNumber : string -> Number)
    (sp : SPRequest -> Response) (lName : string) (fields : list string)
    (values : list JsVal) (w : World) :
  let created := sp (New_options lName (marshal_pairs fields values)) in
  let updated := sp (Batch_options lName (update_batch fields values)) in
  let c := (createNewListItem StringToNumber sp lName fields values w).1 in
  let u := (updateListItem StringToNumber sp lName fields values w).1 in
  let newId := attr (SPFilterNode "z:row" (responseXML created)) "ows_ID" in
  (c = true <-> spec_success StringToNumber created)
  /\ (c = false <-> ~ spec_success StringToNumber created)
  /\ (u = JBool true <-> spec_success StringToNumber updated)
  /\ (u = JBool false <-> ~ spec_success StringToNumber updated)
  /\ (Status created <> "success" -> c = false)
  /\ (SPFilterNode "z:row" (responseXML created) = [] -> c = false)
  /\ (newId = JUndefined -> c = false)
  /\ (forall id, newId = JString id -> ge_zero (StringToNumber id) = false -> c = false).
Proof.
  intros created updated c u newId.
  assert ((c = true <-> spec_success StringToNumber created)
          /\ (c = false <-> ~ spec_success StringToNumber created)
          /\ (u = JBool true <-> spec_success StringToNumber updated)
          /\ (u = JBool false <-> ~ spec_success StringToNumber updated))
    as (Hc & Hc' & Hu & Hu').
  { subst c u. unfold createNewListItem, updateListItem. cbn [fst].
    fold created updated. rewrite <- !success_test.
    destruct (_ && _); destruct (_ && _); naive_solver. }
  destruct (spec_success_failures StringToNumber created) as (F1 & F2 & F3 & F4).
  do 4 (split; [assumption|]).
  split; [intros H; apply Hc'; by apply F1|].
  split; [intros H; apply Hc'; by apply F2|].
  split; [intros H; apply Hc'; by apply F3|].
  intros id Hid Hneg. apply Hc'. by eapply F4.
Qed.

Lemma create_update_success_predicate_witness :
  (createNewListItem decimalToNumber (fun _ => refused "12") "Employees"
     ["FirstName"] [JString "John"] (page ∅)).1 = false
  /\ (createNewListItem decimalToNumber (fun _ => no_rows) "Employees"
        ["FirstName"] [JString "John"] (page ∅)).1 = false
  /\ (createNewListItem decimalToNumber (fun _ => written_without_id) "Employees"
        ["FirstName"] [JString "John"] (page ∅)).1 = false
  /\ (createNewListItem decimalToNumber (fun _ => written "-1") "Employees"
        ["FirstName"] [JString "John"] (page ∅)).1 = false.
Proof.
  split; [|split; [|split]].
  - destruct (create_update_success_predicate decimalToNumber (fun _ => refused "12")
                "Employees" ["FirstName"] [JString "John"] (page ∅))
      as (_ & _ & _ & _ & H & _).
    apply H. discriminate.
  - destruct (create_update_success_predicate decimalToNumber (fun _ => no_rows)
                "Employees" ["FirstName"] [JString "John"] (page ∅))
      as (_ & _ & _ & _ & _ & H & _).
    apply H. reflexivity.
  - destruct (create_update_success_predicate decimalToNumber (fun _ => written_without_id)
                "Employees" ["FirstName"] [JString "John"] (page ∅))
      as (_ & _ & _ & _ & _ & _ & H & _).
    apply H. reflexivity.
  - destruct (create_update_success_predicate decimalToNumber (fun _ => written "-1")
                "Employees" ["FirstName"] [JString "John"] (page ∅))
      as (_ & _ & _ & _ & _ & _ & _ & H).
    apply (H "-1"); reflexivity.
Defined.

Example create_update_on_samples :
  (createNewListItem decimalToNumber (fun _ => written "12") "Employees"
     ["FirstName"; "LastName"] [JString "John"; JString "Doe"] (page ∅)).1 = true
  /\ (createNewListItem decimalToNumber (fun _ => written "-1") "Employees"
        ["FirstName"] [JString "John"] (page ∅)).1 = false
  /\ (createNewListItem decimalToNumber (fun _ => written_without_id) "Employees"
        ["FirstName"] [JString "John"] (page ∅)).1 = false
  /\ (createNewListItem decimalToNumber (fun _ => refused "12") "Employees"
        ["FirstName"] [JString "John"] (page ∅)).1 = false
  /\ (createNewListItem decimalToNumber (fun _ => no_rows) "Employees"
        ["FirstName"] [JString "John"] (page ∅)).1 = false
  /\ (updateListItem decimalToNumber (fun _ => written "152") "Employees"
        ["ID"; "FirstName"] [JNumber 152; JString "John"] (page ∅)).1 = JBool true
  /\ (updateListItem decimalToNumber (fun _ => refused "152") "Employees"
        ["ID"; "FirstName"] [JNumber 152; JString "John"] (page ∅)).1 = JBool false.
Proof. repeat split; vm_compute; reflexivity. Qed.

(** ** Marshalling *)

Lemma forEach_from_ext {A St : Type} (k : nat) (a : list A)
    (fn fn' : A -> nat -> St -> St) (s : St) :
  (forall i x s, a !! i = Some x -> fn x (k + i) s = fn' x (k + i) s) ->
  forEach_from k a fn s = forEach_from k a fn' s.
Proof.
  revert k s. induction a as [|item a IH]; intros k s H; [done|].
  cbn [forEach_from]. rewrite <- (Nat.add_0_r k) at 2 4.
  rewrite (H 0 item s eq_refl). rewrite Nat.add_0_r.
  apply IH. intros i x s' Hx.
  replace (S k + i) with (k + S i) by lia. by apply H.
Qed.

Lemma forEach_from_push {A B : Type} (g : nat -> A -> B) (k : nat) (a : list A)
    (acc : list B) :
  forEach_from k a (fun item index acc => acc ++ [g index item]) acc
  = acc ++ imap (fun i => g (k + i)) a.
Proof.
  revert k acc. induction a as [|item a IH]; intros k acc.
  - by rewrite app_nil_r.
  - cbn [forEach_from]. rewrite IH, imap_cons, Nat.add_0_r, <- app_assoc.
    cbn [app]. do 2 f_equal. apply imap_ext. intros i x _. cbn. f_equal. lia.
Qed.

Lemma append_empty_r (s : string) : s +:+ "" = s.
Proof.
  induction s as [|x s IH]; [done|].
  change (String x (s +:+ "") = String x s). by rewrite IH.
Qed.

Lemma forEach_from_append {A : Type} (h : nat -> A -> string) (k : nat) (a : list A)
    (acc : string) :
  forEach_from k a (fun item index acc => acc +:+ h index item) acc
  = acc +:+ foldr String.append "" (imap (fun i => h (k + i)) a).
Proof.
  revert k acc. induction a as [|item a IH]; intros k acc.
  - cbn. by rewrite append_empty_r.
  - cbn [forEach_from]. rewrite IH, imap_cons, Nat.add_0_r, append_assoc.
    cbn [foldr]. do 3 f_equal. apply imap_ext. intros i x _. cbn. f_equal. lia.
Qed.

Lemma index_read_fields (fields : list string) (i : nat) (f : string) :
  fields !! i = Some f -> index_read (JString <$> fields) i = JString f.
Proof. intros H. unfold index_read. by rewrite list_lookup_fmap, H. Qed.

(** The pairs createNewListItem sends: one per field, in order, with the
    value of the same index or [undefined]. *)
Lemma marshal_pairs_spec (fields : list string) (values : list JsVal) :
  marshal_pairs fields values = imap (pair_at values) fields.
Proof.
  unfold marshal_pairs, forEach.
  rewrite (forEach_from_ext 0 fields _
             (fun item index acc => acc ++ [pair_at values index item])).
  - by rewrite forEach_from_push.
  - intros i x s Hx. cbn. unfold pair_at.
    by rewrite (index_read_fields _ _ _ Hx).
Qed.

(** The [<Field>] elements updateListItem sends. *)
Lemma marshal_fields_spec (fields : list string) (values : list JsVal) :
  marshal_fields fields values = foldr String.append "" (imap (field_at values) fields).
Proof.
  unfold marshal_fields, forEach.
  rewrite (forEach_from_ext 0 fields _
             (fun item index acc => acc +:+ field_at values index item)).
  - by rewrite forEach_from_append.
  - intros i x s Hx. cbv beta. change (0 + i) with i. unfold field_at.
    by rewrite (index_read_fields _ _ _ Hx).
Qed.

(** The loops read [values] at the index of each field: with as many
    values as fields, the element there. *)
Lemma imap_pair_at_zip (fields : list string) (values : list JsVal) :
  length fields = length values ->
  imap (pair_at values) fields = zip (JString <$> fields) values.
Proof.
  intros Hlen. apply list_eq. intros i.
  rewrite list_lookup_imap, lookup_zip_with, list_lookup_fmap.
  destruct (fields !! i) as [f|] eqn:Hf; [|done]. cbn.
  destruct (lookup_lt_is_Some_2 values i) as [v Hv].
  { apply lookup_lt_Some in Hf. lia. }
  unfold pair_at. by rewrite Hv.
Qed.

Lemma imap_field_at_zip (fields : list string) (values : list JsVal) :
  length fields = length values ->
  imap (field_at values) fields
  = zip_with (fun f v => "<Field Name='" +:+ f +:+ "'>" +:+ ToString v +:+ "</Field>")
      fields values.
Proof.
  intros Hlen. apply list_eq. intros i.
  rewrite list_lookup_imap, lookup_zip_with.
  destruct (fields !! i) as [f|] eqn:Hf; [|done]. cbn.
  destruct (lookup_lt_is_Some_2 values i) as [v Hv].
  { apply lookup_lt_Some in Hf. lia. }
  unfold field_at. by rewrite Hv.
Qed.

(** C5: createNewListItem and updateListItem do not compare the lengths of
    [fields] and [values].  With more fields than values the request is sent
    all the same, each field paired with the value of its index and the
    fields past the end of [values] with [undefined] (the text "undefined"
    in the batch of updateListItem); createNewListItem returns a boolean (by
    its type), updateListItem the boolean [true] or [false], and no call
    fails.  With as many fields as values, what the marshalling reads at
    each index is the element both arrays have there, never the [undefined]
    of a read past the end: the pairs sent are the fields and the values
    side by side, one [<Field>] element for each in the batch, and the pair
    of index [i] holds [fields[i]] and [values[i]]. *)
Theorem marshalling_unvalidated (StringToNumber : string -> Number)
    (sp : SPRequest -> Response) (lName : string) (fields : list string)
    (values : list JsVal) (w : World) :
  let c := createNewListItem StringToNumber sp lName fields values w in
  let u := updateListItem StringToNumber sp lName fields values w in
  (length values < length fields ->
     requests c.2 = requests w ++ [New_options lName (imap (pair_at values) fields)]
     /\ requests u.2
        = requests w ++
          [Batch_options lName
             ("<Batch OnError='Continue' PreCalc='TRUE'><Method ID='1' Cmd='Update'>"
                +:+ foldr String.append "" (imap (field_at values) fields)
                +:+ "</Method></Batch>")]
     /\ (forall i f, fields !! i = Some f -> length values <= i ->
           marshal_pairs fields values !! i = Some (JString f, JUndefined)
           /\ field_at values i f = "<Field Name='" +:+ f +:+ "'>undefined</Field>")
     /\ (exists i f, fields !! i = Some f /\ length values <= i)
     /\ (exists b, u.1 = JBool b))
  /\ (length fields = length values ->
      marshal_pairs fields values = zip (JString <$> fields) values
      /\ marshal_fields fields values
         = foldr String.append ""
             (zip_with (fun f v => "<Field Name='" +:+ f +:+ "'>" +:+ ToString v +:+ "</Field>")
                fields values)
      /\ (forall i, i < length fields ->
            exists f v, fields !! i = Some f /\ values !! i = Some v
                        /\ marshal_pairs fields values !! i = Some (JString f, v))
      /\ requests c.2 = requests w ++ [New_options lName (zip (JString <$> fields) values)]
      /\ requests u.2
         = requests w ++
           [Batch_options lName
              ("<Batch OnError='Continue' PreCalc='TRUE'><Method ID='1' Cmd='Update'>"
                 +:+ foldr String.append ""
                       (zip_with
                          (fun f v => "<Field Name='" +:+ f +:+ "'>" +:+ ToString v +:+ "</Field>")
                          fields values)
                 +:+ "</Method></Batch>")]).
Proof.
  intros c u. subst c u. split.
  - intros Hlen. unfold createNewListItem, updateListItem, update_batch.
    cbn [fst snd requests add_request].
    rewrite marshal_pairs_spec, marshal_fields_spec.
    split; [done|]. split; [done|]. split; [|split].
    + intros i f Hf Hi. unfold field_at.
      rewrite list_lookup_imap, Hf. unfold pair_at.
      by rewrite (lookup_ge_None_2 values i) by lia.
    + destruct (lookup_lt_is_Some_2 fields (length values) Hlen) as [f Hf].
      by exists (length values), f.
    + destruct (_ && _); by eexists.
  - intros Hlen. unfold createNewListItem, updateListItem, update_batch.
    cbn [fst snd requests add_request].
    rewrite marshal_pairs_spec, marshal_fields_spec.
    rewrite (imap_pair_at_zip _ _ Hlen), (imap_field_at_zip _ _ Hlen).
    split; [done|]. split; [done|]. split; [|done].
    intros i Hi.
    destruct (lookup_lt_is_Some_2 fields i Hi) as [f Hf].
    destruct (lookup_lt_is_Some_2 values i) as [v Hv]; [lia|].
    exists f, v. split; [done|]. split; [done|].
    by rewrite lookup_zip_with, list_lookup_fmap, Hf, Hv.
Qed.

Lemma marshalling_unvalidated_witness :
  (marshal_pairs ["FirstName"; "LastName"] [JString "John"] !! 1
   = Some (JString "LastName", JUndefined)
   /\ field_at [JString "John"] 1 "LastName" = "<Field Name='LastName'>undefined</Field>")
  /\ marshal_pairs ["FirstName"; "LastName"] [JString "John"; JString "Doe"]
     = zip (JString <$> ["FirstName"; "LastName"]) [JString "John"; JString "Doe"].
Proof.
  split.
  - apply (proj1 (proj2 (proj2
             (proj1 (marshalling_unvalidated decimalToNumber (fun _ => written "3") "Employees"
                       ["FirstName"; "LastName"] [JString "John"] (page ∅))
                (le_n 2)))) 1 "LastName" eq_refl (le_n 1)).
  - exact (proj1 (proj2 (marshalling_unvalidated decimalToNumber (fun _ => written "3")
                           "Employees" ["FirstName"; "LastName"]
                           [JString "John"; JString "Doe"] (page ∅))
                    eq_refl)).
Defined.

Example marshalling_on_samples :
  marshal_pairs ["FirstName"; "LastName"] [JString "John"; JString "Doe"]
  = [(JString "FirstName", JString "John"); (JString "LastName", JString "Doe")]
  /\ marshal_pairs ["FirstName"; "LastName"] [JString "John"]
     = [(JString "FirstName", JString "John"); (JString "LastName", JUndefined)]
  /\ update_batch ["ID"; "FirstName"] [JNumber 152]
     = "<Batch OnError='Continue' PreCalc='TRUE'><Method ID='1' Cmd='Update'><Field Name='ID'>152</Field><Field Name='FirstName'>undefined</Field></Method></Batch>".
Proof. repeat split; vm_compute; reflexivity. Qed.

(** ** getCurrentUser *)

(** [find] gives the elements of the name in document order: the first
    one is the first element of the document that has the name. *)
Lemma find_first (tag : string) (root u : Node) (before after : list Node) :
  elements root = before ++ u :: after ->
  has_name tag u = true ->
  (forall x, x ∈ before -> has_name tag x = false) ->
  find tag (Some root) = u :: List.filter (has_name tag) after.
Proof.
  intros Hdoc Hu Hbefore. unfold find, all_elements. rewrite Hdoc.
  rewrite List.filter_app. cbn [List.filter]. rewrite Hu.
  replace (List.filter (has_name tag) before) with (@nil Node); [done|].
  symmetry. clear Hdoc. induction before as [|x before IH]; [done|].
  cbn [List.filter]. rewrite (Hbefore x) by (by left).
  apply IH. intros y Hy. apply Hbefore. by right.
Qed.

(** C8: getCurrentUser returns an array of two values, the identifier and
    the name, in this order: the attributes [ID] and [Name] of the first
    User element of the answer in document order, each [undefined] when that
    element has no such attribute.  When the answer holds no User element,
    and when it holds no document at all, both are [undefined]; nothing else
    happens than the post of the request. *)
Theorem getCurrentUser_pair (ajax : AjaxRequest -> Response) (w : World) :
  let r := getCurrentUser ajax w in
  let xData := ajax getCurrentUser_options in
  (exists idUser name, r.1 = [idUser; name])
  /\ (forall root before after attrs kids,
        responseXML xData = Some root ->
        elements root = before ++ Element "User" attrs kids :: after ->
        (forall x, x ∈ before -> has_name "User" x = false) ->
        r.1 = [or_undefined (assoc "ID" attrs); or_undefined (assoc "Name" attrs)])
  /\ (find "User" (responseXML xData) = [] -> r.1 = [JUndefined; JUndefined])
  /\ (responseXML xData = None -> r.1 = [JUndefined; JUndefined])
  /\ r.2 = add_post getCurrentUser_options w.
Proof.
  intros r xData. subst r. unfold getCurrentUser. cbn [fst snd]. fold xData.
  split; [by eexists _, _|]. split; [|split; [by intros ->|split; [by intros ->|done]]].
  intros root before after attrs kids Hroot Hdoc Hbefore.
  rewrite Hroot, (find_first "User" root _ before after Hdoc eq_refl Hbefore).
  done.
Qed.

Lemma getCurrentUser_pair_witness :
  (getCurrentUser (fun _ => user_info) (page ∅)).1 = [JString "5"; JString "John Doe"]
  /\ (getCurrentUser (fun _ => soap_fault) (page ∅)).1 = [JUndefined; JUndefined]
  /\ (getCurrentUser (fun _ => no_document) (page ∅)).1 = [JUndefined; JUndefined].
Proof.
  split; [|split].
  - refine (proj1 (proj2 (getCurrentUser_pair (fun _ => user_info) (page ∅)))
              _ [Element "GetCurrentUserInfoResult" []
                   [Element "GetUserInfo" []
                      [Element "User" [("ID", "5"); ("Name", "John Doe")] []]];
                 Element "GetUserInfo" []
                   [Element "User" [("ID", "5"); ("Name", "John Doe")] []]]
              [] [("ID", "5"); ("Name", "John Doe")] [] eq_refl eq_refl _).
    intros x Hx. apply elem_of_cons in Hx as [->|Hx]; [reflexivity|].
    apply elem_of_cons in Hx as [->|Hx]; [reflexivity|].
    by apply elem_of_nil in Hx.
  - apply (proj1 (proj2 (proj2 (getCurrentUser_pair (fun _ => soap_fault) (page ∅))))).
    reflexivity.
  - apply (proj1 (proj2 (proj2 (proj2 (getCurrentUser_pair (fun _ => no_document) (page ∅)))))).
    reflexivity.
Defined.

Example getCurrentUser_on_sample :
  (getCurrentUser (fun _ => user_info) (page ∅)).1 = [JString "5"; JString "John Doe"].
Proof. reflexivity. Qed.

(** ** More on reading *)

(** A read without callback is a cross-site read without site, with the
    query getListItems sends, whose array is collapsed: [false] for no row,
    the row object for one row, the array for more. *)
Lemma getListItems_collapses_external (sp : SPRequest -> Response) (lName : string)
    (fields : list string) (query : option string) (w : World) :
  let e := getExternalListItems sp lName (Some (sent_query query)) fields None None w in
  let r := getListItems sp lName fields query None w in
  r.2 = e.2
  /\ e.1 = RArray (length (arrays w))
  /\ r.1 = match array_at (length (arrays w)) e.2 with
           | [] => RBool false
           | [Some o] => RObject o
           | [None] => RUndefined
           | _ => RArray (length (arrays w))
           end.
Proof.
  cbv zeta. rewrite getListItems_sync, getExternalListItems_sync. cbn [fst snd].
  split; [done|]. split; [done|].
  unfold array_at. cbn [arrays add_request set_arrays].
  rewrite list_lookup_middle by done. cbn [default].
  by destruct (parsed_rows fields _) as [|o [|o' rest]].
Qed.

Lemma update_array_other (loc l : nat) f (w : World) :
  l <> loc -> arrays (update_array loc f w) !! l = arrays w !! l.
Proof. intros Hne. unfold update_array. cbn. by apply list_lookup_alter_ne. Qed.

Lemma each_row_other (fields : list string) (loc l : nat) (st : World * nat) (row : Node) :
  l <> loc -> arrays (each_row fields loc st row).1 !! l = arrays st.1 !! l.
Proof.
  intros Hne. destruct st as [w i]. unfold each_row. cbn [fst].
  enough (forall w0 : World,
            arrays (foldl (fun w item =>
                             update_array loc
                               (alter (fmap (assign item (attr [row] ("ows_" +:+ item)))) i) w)
                          w0 fields) !! l = arrays w0 !! l) as H.
  { rewrite H. by apply update_array_other. }
  induction fields as [|item fields IH]; intros w0; [done|].
  cbn [foldl]. rewrite IH. by apply update_array_other.
Qed.

Lemma rows_loop_other (fields : list string) (loc l : nat) (rows : list Node)
    (st : World * nat) :
  l <> loc -> arrays (foldl (each_row fields loc) st rows).1 !! l = arrays st.1 !! l.
Proof.
  intros Hne. revert st. induction rows as [|row rows IH]; intros st; [done|].
  cbn [foldl]. rewrite IH. by apply each_row_other.
Qed.

(** The completion function writes into its own array only. *)
Lemma completefunc_other (c : ListCompletion) (xData : Response) (w : World) (l : nat) :
  l <> c_listItems c -> arrays (completefunc c xData w) !! l = arrays w !! l.
Proof.
  intros Hne. unfold completefunc.
  destruct (String.eqb (Status xData) "success"); [|done].
  pose proof (rows_loop_other (c_fields c) (c_listItems c) l
                (SPFilterNode "z:row" (responseXML xData)) (w, c_i c) Hne) as H.
  destruct (foldl _ _ _) as [w' i']. cbn [fst] in H.
  destruct (global_truthy "isAsync" w'); [|done].
  by destruct (c_callback c).
Qed.

(** An array a read has returned is never changed by a later read, with or
    without callback, nor by the answer to a request that has another
    array. *)
Lemma earlier_arrays_kept (sp : SPRequest -> Response) (w : World) (l : nat) :
  (l < length (arrays w) ->
   forall lName fields query webUrl callback,
     array_at l (getListItems sp lName fields query callback w).2 = array_at l w
     /\ array_at l (getExternalListItems sp lName query fields webUrl callback w).2
        = array_at l w)
  /\ (forall k c xData,
        pending w !! k = Some (Some c) -> c_listItems c <> l ->
        array_at l (complete k xData w) = array_at l w).
Proof.
  split.
  - intros Hl lName fields query webUrl callback.
    destruct callback as [cb|];
      rewrite ?getListItems_async, ?getListItems_sync,
        ?getExternalListItems_async, ?getExternalListItems_sync;
      unfold array_at; cbn [snd arrays set_arrays set_pending add_request set_global];
      by rewrite !lookup_app_l by done.
  - intros k c xData Hk Hne. unfold complete, array_at. rewrite Hk.
    by rewrite completefunc_other.
Qed.

Lemma earlier_arrays_kept_witness :
  let w := (getExternalListItems (fun _ => one_row) "Employees" None ["ID"] None None
              (getListItems (fun _ => no_rows) "Offices" ["ID"] None (Some "show") (page ∅)).2).2 in
  array_at 1 (getListItems (fun _ => one_row) "Employees" ["FirstName"] None None w).2
  = array_at 1 w
  /\ array_at 1 (complete 0 one_row w) = array_at 1 w.
Proof.
  intros w. split.
  - apply (proj1 (earlier_arrays_kept (fun _ => one_row) w 1)).
    vm_compute. lia.
  - apply (proj2 (earlier_arrays_kept (fun _ => one_row) w 1) 0
             {| c_fields := ["ID"]; c_listItems := 0; c_i := 0; c_callback := Some "show" |}).
    + reflexivity.
    + discriminate.
Defined.

(** A read without callback, made while another read is in flight, takes
    the callback of that read away: whatever the answer, nothing is called
    when it arrives, though the rows are parsed into the array and the
    request is no longer in flight. *)
Lemma sync_read_suppresses_pending_callback (sp : SPRequest -> Response) (w : World)
    (k l : nat) (fields : list string) (cb : Callback)
    (lName' : string) (fields' : list string) (query' : option string)
    (xData : Response) :
  pending w !! k = Some (Some {| c_fields := fields; c_listItems := l;
                                 c_i := 0; c_callback := Some cb |}) ->
  arrays w !! l = Some [] ->
  let w' := complete k xData (getListItems sp lName' fields' query' None w).2 in
  log w' = log w
  /\ array_at l w' = Some <$> parsed_rows fields xData
  /\ pending w' !! k = Some None.
Proof.
  intros Hk Hl. cbv zeta. rewrite getListItems_sync. cbn [snd].
  assert (l < length (arrays w)) as Hlt by (by eapply lookup_lt_Some).
  assert (k < length (pending w)) as Hkt by (by eapply lookup_lt_Some).
  erewrite complete_spec; [| exact Hk | cbn; by apply lookup_app_l_Some].
  cbv zeta. autorewrite with world. cbn [ToBoolean]. rewrite andb_false_r.
  split; [done|]. split.
  - unfold array_at. cbn [arrays set_arrays set_pending add_request set_global].
    rewrite list_lookup_insert_eq; [done|]. rewrite length_app. lia.
  - cbn [pending set_arrays set_pending add_request set_global].
    by rewrite list_lookup_insert_eq.
Qed.

Lemma sync_read_suppresses_pending_callback_witness :
  let w := (getListItems (fun _ => no_rows) "Employees" ["ID"; "FirstName"] None
              (Some "showEmployees") (page ∅)).2 in
  let w' := complete 0 one_row (getListItems (fun _ => no_rows) "Offices" ["ID"] None None w).2 in
  log w' = log w
  /\ array_at 0 w' = Some <$> parsed_rows ["ID"; "FirstName"] one_row
  /\ pending w' !! 0 = Some None.
Proof.
  intros w.
  refine (sync_read_suppresses_pending_callback (fun _ => no_rows) w 0 0
            ["ID"; "FirstName"] "showEmployees" "Offices" ["ID"] None one_row _ _);
    reflexivity.
Defined.

(** ** More on uploadFile *)

Lemma substring_drop_chars (k : nat) (s : string) :
  k <= String.length s -> substring k (String.length s - k) s = drop_chars k s.
Proof.
  revert k. induction s as [|c s IH]; intros k Hk.
  - by destruct k.
  - destruct k as [|k].
    + cbn [drop_chars]. rewrite Nat.sub_0_r. apply substring_all.
    + cbn [drop_chars String.length Nat.sub substring]. apply IH. cbn in Hk. lia.
Qed.

Lemma drop_chars_all (k : nat) (s : string) :
  String.length s <= k -> drop_chars k s = "".
Proof.
  revert k. induction s as [|c s IH]; intros k Hk; [by destruct k|].
  destruct k as [|k]; cbn in Hk; [lia|]. cbn [drop_chars]. apply IH. lia.
Qed.

(** [s.substring(n)] drops the first [n] characters. *)
Lemma substring_from_drop (s : string) (n : Z) :
  (0 <= n)%Z -> substring_from s n = drop_chars (Z.to_nat n) s.
Proof.
  intros Hn. unfold substring_from.
  destruct (decide (Z.to_nat n <= String.length s)) as [Hle|Hgt].
  - replace (Z.to_nat (Z.min _ _)) with (Z.to_nat n) by lia.
    by apply substring_drop_chars.
  - replace (Z.to_nat (Z.min _ _)) with (String.length s) by lia.
    rewrite substring_drop_chars by lia.
    rewrite !drop_chars_all by lia. done.
Qed.

Lemma onload_handler_posts (c : OnLoad) (w : World) (g : nat) (rd : Reader) :
  globals w !! "filereader" = Some (GReader g) ->
  readers w !! g = Some rd ->
  posts (onload_handler c w)
  = posts w ++ match result rd with Some d => [posted_by c d] | None => [] end
  /\ uploads (onload_handler c w)
     = uploads w ++ match result rd with
                    | Some d => [Some (o_successCallback c, o_errorCallback c)]
                    | None => []
                    end
  /\ log (onload_handler c w) = log w.
Proof.
  intros Hg Hrd. unfold onload_handler. rewrite Hg, Hrd. cbn [fmap option_fmap option_map].
  destruct (result rd) as [d|]; cbn; by rewrite ?app_nil_r.
Qed.

(** When a file has been read, its handler posts the result of the reader
    that the global [filereader] names at that moment, which is the reader
    of the latest call of uploadFile, under the destination and the
    metadata of its own call; when that reader has no result yet, nothing is
    posted. *)
Lemma loaded_posts_result_of_filereader (w : World) (r g : nat) (rd rdg : Reader)
    (f : string) (c : OnLoad) :
  readers w !! r = Some rd -> source rd = Some f -> onload rd = Some c ->
  globals w !! "filereader" = Some (GReader g) -> readers w !! g = Some rdg ->
  posts (loaded r w)
  = posts w ++ match (if decide (g = r) then Some f else result rdg) with
               | Some d => [posted_by c d]
               | None => []
               end.
Proof.
  intros Hr Hf Hc Hg Hrdg. unfold loaded. rewrite Hr, Hf, Hc.
  assert (r < length (readers w)) as Hlt by (by eapply lookup_lt_Some).
  destruct (decide (g = r)) as [->|Hne].
  - edestruct onload_handler_posts as [-> _]; [exact Hg| |].
    + cbn [readers set_readers]. by apply list_lookup_insert_eq.
    + done.
  - edestruct onload_handler_posts as [-> _]; [exact Hg| |].
    + cbn [readers set_readers]. rewrite list_lookup_insert_ne by done. exact Hrdg.
    + done.
Qed.

Lemma loaded_posts_result_of_filereader_witness :
  let site := "http://example.us/site" in
  posts (loaded 0 (loaded 1 two_uploads))
  = posts (loaded 1 two_uploads)
    ++ [upload_options site (upload_envelope (JString "a.txt") site "Docs" "a.txt" "" "QkJC")].
Proof.
  intros site.
  refine (loaded_posts_result_of_filereader (loaded 1 two_uploads) 0 1
            {| result := None; r_filename := JString "a.txt";
               onload := Some {| o_path := JString "a.txt"; o_urlSite := site;
                                 o_lName := "Docs"; o_filename := "a.txt";
                                 o_fieldInformation := "";
                                 o_successCallback := None; o_errorCallback := None |};
               source := Some "data:text/plain;base64,QUFB" |}
            {| result := Some "data:text/plain;base64,QkJC"; r_filename := JString "b.txt";
               onload := Some {| o_path := JString "b.txt"; o_urlSite := site;
                                 o_lName := "Docs"; o_filename := "b.txt";
                                 o_fieldInformation := "";
                                 o_successCallback := None; o_errorCallback := None |};
               source := None |}
            "data:text/plain;base64,QUFB" _ _ eq_refl eq_refl _ _);
    vm_compute; reflexivity.
Defined.

(** One upload, nothing in between: when the file has been read one request
    is posted, and one settlement is awaited. *)
Lemma uploadFile_loaded (urlSite lName idInputFile : string) (fields : list (list JsVal))
    (filename file : string) (successCallback errorCallback : option Callback)
    (w : World) :
  let w' := loaded (length (readers w))
              (uploadFile urlSite lName idInputFile fields filename file
                 successCallback errorCallback w) in
  posts w'
  = posts w ++
    [upload_options urlSite
       (upload_envelope (or_undefined (inputs w !! idInputFile)) urlSite lName filename
          (fieldInformation_of fields) (substring_from file (indexOf file ";base64," + 8)))]
  /\ uploads w' = uploads w ++ [Some (successCallback, errorCallback)]
  /\ log w' = log w.
Proof.
  cbv zeta. rewrite uploadFile_spec. unfold loaded.
  cbn [globals readers set_global set_readers].
  rewrite list_lookup_middle by done. cbn [source onload r_filename].
  edestruct onload_handler_posts as (-> & -> & ->).
  - cbn [globals readers set_global set_readers]. apply lookup_insert_eq.
  - cbn [globals readers set_global set_readers]. rewrite insert_last.
    by apply list_lookup_middle.
  - done.
Qed.

(** A read result without the marker: [indexOf] is -1, and the Stream is
    the read result without its first seven characters (empty when it has
    no more than seven). *)
Lemma uploadFile_without_marker (urlSite lName idInputFile : string)
    (fields : list (list JsVal)) (filename file : string)
    (successCallback errorCallback : option Callback) (w : World) :
  String.index 0 ";base64," file = None ->
  posts (loaded (length (readers w))
           (uploadFile urlSite lName idInputFile fields filename file
              successCallback errorCallback w))
  = posts w ++
    [upload_options urlSite
       (upload_envelope (or_undefined (inputs w !! idInputFile)) urlSite lName filename
          (fieldInformation_of fields) (drop_chars 7 file))].
Proof.
  intros Hm. destruct (uploadFile_loaded urlSite lName idInputFile fields filename file
                         successCallback errorCallback w) as [-> _].
  unfold indexOf. rewrite Hm. by rewrite substring_from_drop.
Qed.

Lemma uploadFile_without_marker_witness :
  let w := page {[ "inputA" := "empty.txt" ]} in
  posts (loaded (length (readers w))
           (uploadFile "http://example.us/site" "Docs" "inputA" [] "empty.txt" "data:"
              None None w))
  = posts w ++
    [upload_options "http://example.us/site"
       (upload_envelope (or_undefined (inputs w !! "inputA")) "http://example.us/site"
          "Docs" "empty.txt" (fieldInformation_of []) (drop_chars 7 "data:"))].
Proof.
  intros w.
  refine (uploadFile_without_marker "http://example.us/site" "Docs" "inputA" [] "empty.txt"
            "data:" None None w _).
  reflexivity.
Defined.

(** When the copy request is settled, exactly one thing happens: on success
    the success callback is called, or the success message logged when no
    callback was given; on failure the error callback is called, or the
    failure message logged. *)
Lemma upload_settled (urlSite lName idInputFile : string) (fields : list (list JsVal))
    (filename file : string) (successCallback errorCallback : option Callback)
    (ok : bool) (w : World) :
  let w' := loaded (length (readers w))
              (uploadFile urlSite lName idInputFile fields filename file
                 successCallback errorCallback w) in
  log (settled (length (uploads w)) ok w')
  = log w ++
    [match ok, successCallback, errorCallback with
     | true, Some cb, _ => CallSuccess cb
     | true, None, _ => ConsoleLog "File uploaded successfully"
     | false, _, Some cb => CallError cb
     | false, _, None => ConsoleLog "The file couldn't be uploaded"
     end].
Proof.
  cbv zeta.
  destruct (uploadFile_loaded urlSite lName idInputFile fields filename file
              successCallback errorCallback w) as (_ & Hu & Hl).
  unfold settled. rewrite Hu, list_lookup_middle by done.
  destruct ok, successCallback, errorCallback; cbn [log add_event set_uploads];
    by rewrite Hl.
Qed.

(** ** More on writing *)

(** deleteListItem sends one Delete batch that names the item by its ID
    alone, and returns the boolean [true] exactly when the status is
    "success" and the response holds a row identifier that is not negative,
    the boolean [false] otherwise. *)
Lemma deleteListItem_success_predicate (StringToNumber : string -> Number)
    (sp : SPRequest -> Response) (lName : string) (id : JsVal) (w : World) :
  let req :=
    Batch_options lName
      ("<Batch OnError='Continue' PreCalc='TRUE'><Method ID='1' Cmd='Delete'><Field Name='ID'>"
         +:+ ToString id +:+ "</Field></Method></Batch>") in
  let d := deleteListItem StringToNumber sp lName id w in
  requests d.2 = requests w ++ [req]
  /\ (d.1 = JBool true <-> spec_success StringToNumber (sp req))
  /\ (d.1 = JBool false <-> ~ spec_success StringToNumber (sp req)).
Proof.
  intros req d. subst d. unfold deleteListItem. cbn [fst snd requests add_request].
  assert (Batch_options lName
            ("<Batch OnError='Continue' PreCalc='TRUE'><Method ID='1' Cmd='Delete'>"
               +:+ ("<Field Name='ID'>" +:+ ToString id +:+ "</Field>")
               +:+ "</Method></Batch>") = req) as ->.
  { subst req. f_equal. by rewrite !append_assoc. }
  split; [done|]. rewrite <- !success_test.
  destruct (_ && _); naive_solver.
Qed.

Lemma marshal_pairs_forEach (fields : list string) (values : list JsVal) :
  forEach fields
    (fun item index fieldValues =>
       let pairs := (index_read (JString <$> fields) index, index_read values index) in
       fieldValues ++ [pairs])
    [] = marshal_pairs fields values.
Proof. done. Qed.

(** The cross-site writes are the local writes on a service that routes the
    request to the site: same marshalling, same verdict, the request with
    the [webURL] added; without site they are the local writes. *)
Lemma external_writes_route (StringToNumber : string -> Number)
    (sp : SPRequest -> Response) (lName : string) (fields : list string)
    (values : list JsVal) (webUrl : option string) (w : World) :
  let routed := fun req => sp (at_site webUrl req) in
  let ce := createExternalListItem StringToNumber sp lName fields values webUrl w in
  let ue := updateExternalListItem StringToNumber sp lName fields values webUrl w in
  ce.1 = (createNewListItem StringToNumber routed lName fields values w).1
  /\ requests ce.2
     = requests w ++ [at_site webUrl (New_options lName (imap (pair_at values) fields))]
  /\ ue.1 = (updateListItem StringToNumber routed lName fields values w).1
  /\ requests ue.2
     = requests w ++ [at_site webUrl (Batch_options lName (update_batch fields values))]
  /\ createExternalListItem StringToNumber sp lName fields values None w
     = createNewListItem StringToNumber sp lName fields values w
  /\ updateExternalListItem StringToNumber sp lName fields values None w
     = updateListItem StringToNumber sp lName fields values w.
Proof.
  cbv zeta. unfold createExternalListItem, updateExternalListItem,
    createNewListItem, updateListItem.
  rewrite marshal_pairs_forEach. cbn [fst snd requests add_request].
  rewrite <- marshal_pairs_spec.
  repeat split.
Qed.

(** ** getUrlVars *)

Lemma run_length_app (class : ascii -> bool) (a b : string) :
  all_chars class a = true -> stops class b = true ->
  run_length class (a +:+ b) = String.length a.
Proof.
  intros Ha Hb. induction a as [|c a IH].
  - change (run_length class b = 0).
    destruct b as [|c b]; [done|]. cbn in Hb |- *.
    by destruct (class c).
  - cbn in Ha. apply andb_true_iff in Ha as [Hc Ha].
    change (run_length class (String c (a +:+ b)) = S (String.length a)).
    cbn [run_length]. rewrite Hc. by rewrite IH.
Qed.

Lemma drop_chars_app (a b : string) : drop_chars (String.length a) (a +:+ b) = b.
Proof. induction a as [|c a IH]; [by destruct b|exact IH]. Qed.

Lemma take_chars_app (a b : string) : take_chars (String.length a) (a +:+ b) = a.
Proof.
  induction a as [|c a IH]; [by destruct b|].
  change (String c (take_chars (String.length a) (a +:+ b)) = String c a). by rewrite IH.
Qed.

(** A repeated class keeps its longest run when the rest of the pattern
    matches after it. *)
Lemma give_back_longest (k : string -> option (list string * string)) (captured : bool)
    (s : string) (min n : nat) (captures : list string) (rest : string) :
  min <= n -> k (drop_chars n s) = Some (captures, rest) ->
  give_back k captured s min n
  = Some (if captured then take_chars n s :: captures else captures, rest).
Proof.
  intros Hn Hk. destruct n as [|n]; cbn [give_back].
  - assert ((0 <? min)%nat = false) as -> by (apply Nat.ltb_ge; lia). by rewrite Hk.
  - assert ((S n <? min)%nat = false) as -> by (apply Nat.ltb_ge; lia). by rewrite Hk.
Qed.

(** It fails when the rest of the pattern matches after none of the lengths
    it can give back to. *)
Lemma give_back_none (k : string -> option (list string * string)) (captured : bool)
    (s : string) (min n : nat) :
  (forall n', min <= n' -> n' <= n -> k (drop_chars n' s) = None) ->
  give_back k captured s min n = None.
Proof.
  induction n as [|n IH]; intros Hk; cbn [give_back].
  - destruct (0 <? min)%nat eqn:Hm; [done|].
    apply Nat.ltb_ge in Hm. by rewrite Hk by lia.
  - destruct (S n <? min)%nat eqn:Hm; [done|].
    apply Nat.ltb_ge in Hm. rewrite Hk by lia. apply IH. intros n' ??. apply Hk; lia.
Qed.

(** No match starts at a character other than "?" and "&", nor at the end. *)
Lemma no_match_without_separator (s : string) :
  stops (is_one_of ["?"; "&"]%char) s = true -> match_pieces url_pattern s = None.
Proof.
  intros Hs. unfold url_pattern. cbn [match_pieces].
  assert (run_length (is_one_of ["?"; "&"]%char) s = 0) as ->.
  { destruct s as [|c s]; [done|]. cbn [stops run_length] in Hs |- *.
    by destruct (is_one_of ["?"; "&"]%char c). }
  done.
Qed.

Lemma plain_name_inv (key : string) :
  plain_name key = true ->
  1 <= String.length key
  /\ all_chars (fun c => negb (is_one_of ["="; "&"]%char c)) key = true
  /\ stops (is_one_of ["?"; "&"]%char) key = true.
Proof.
  destruct key as [|c key]; [done|]. unfold plain_name.
  intros [Hc Hall]%andb_true_iff. split; [cbn; lia|]. by split.
Qed.

(** A parameter with a value is matched where it starts: the name and the
    value are captured, and the match ends before the next "&". *)
Lemma match_parameter (sep : ascii) (key value tail : string) :
  is_one_of ["?"; "&"]%char sep = true ->
  plain_name key = true -> plain_value value = true ->
  stops (fun c => negb (is_one_of ["&"]%char c)) tail = true ->
  match_pieces url_pattern (String sep (key +:+ "=" +:+ value +:+ tail))
  = Some ([key; value], tail).
Proof.
  intros Hsep (Hlen & Hkey & Hfirst)%plain_name_inv Hvalue Htail.
  unfold url_pattern. cbn [match_pieces].
  assert (run_length (is_one_of ["?"; "&"]%char) (String sep (key +:+ "=" +:+ value +:+ tail)) = 1)
    as ->.
  { cbn [run_length]. rewrite Hsep. f_equal.
    destruct key as [|c key]; [done|].
    change (String c key +:+ "=" +:+ value +:+ tail)
      with (String c (key +:+ "=" +:+ value +:+ tail)).
    cbn [stops run_length] in Hfirst |- *.
    by destruct (is_one_of ["?"; "&"]%char c). }
  erewrite give_back_longest; [reflexivity|lia|].
  cbn [drop_chars].
  rewrite run_length_app by done.
  erewrite give_back_longest; [|exact Hlen|].
  { by rewrite take_chars_app. }
  rewrite drop_chars_app.
  change ("=" +:+ value +:+ tail) with (String "=" (value +:+ tail)).
  cbn [Ascii.eqb Bool.eqb].
  rewrite run_length_app by done.
  erewrite give_back_longest; [|lia|].
  { by rewrite take_chars_app. }
  by rewrite drop_chars_app.
Qed.

Lemma no_equals_after_name (ps : list Piece) (key tail : string) (n : nat) :
  all_chars (fun c => negb (is_one_of ["?"; "&"; "="]%char c)) key = true ->
  stops (fun c => negb (is_one_of ["&"]%char c)) tail = true ->
  n <= String.length key ->
  match_pieces (Char "=" :: ps) (drop_chars n (key +:+ tail)) = None.
Proof.
  intros Hkey Htail. revert n. induction key as [|c key IH]; intros n Hn.
  - cbn in Hn. assert (n = 0) as -> by lia.
    change (match_pieces (Char "=" :: ps) tail = None).
    destruct tail as [|c tail]; [done|]. cbn [match_pieces].
    cbn [stops] in Htail. apply negb_true_iff, negb_false_iff in Htail.
    unfold is_one_of in Htail. cbn [existsb] in Htail.
    rewrite orb_false_r in Htail. apply Ascii.eqb_eq in Htail as ->. done.
  - cbn [all_chars] in Hkey. apply andb_true_iff in Hkey as [Hc Hkey].
    change (String c key +:+ tail) with (String c (key +:+ tail)).
    destruct n as [|n].
    + cbn [drop_chars match_pieces].
      destruct (Ascii.eqb_spec "=" c) as [<-|]; [done|done].
    + cbn [drop_chars]. apply IH; [done|]. cbn in Hn. lia.
Qed.

Lemma all_chars_weaken (class class' : ascii -> bool) (s : string) :
  (forall c, class c = true -> class' c = true) ->
  all_chars class s = true -> all_chars class' s = true.
Proof.
  intros Hw. induction s as [|c s IH]; [done|]. cbn [all_chars].
  intros [Hc Hs]%andb_true_iff. rewrite (Hw c Hc). by apply IH.
Qed.

Lemma bare_name_inv (key : string) :
  bare_name key = true ->
  1 <= String.length key
  /\ all_chars (fun c => negb (is_one_of ["?"; "&"; "="]%char c)) key = true
  /\ all_chars (fun c => negb (is_one_of ["="; "&"]%char c)) key = true
  /\ all_chars (fun c => negb (is_one_of ["?"; "&"]%char c)) key = true.
Proof.
  unfold bare_name. intros [Hne Hall]%andb_true_iff.
  split; [destruct key; [done|cbn; lia]|]. split; [done|].
  split; (eapply all_chars_weaken; [|exact Hall]); intros c; unfold is_one_of;
    cbn [existsb]; destruct (c =? "?")%char, (c =? "&")%char, (c =? "=")%char; done.
Qed.

(** A parameter without "=" is matched nowhere. *)
Lemma match_bare_parameter (sep : ascii) (key tail : string) :
  is_one_of ["?"; "&"]%char sep = true ->
  bare_name key = true ->
  stops (fun c => negb (is_one_of ["&"]%char c)) tail = true ->
  match_pieces url_pattern (String sep (key +:+ tail)) = None.
Proof.
  intros Hsep (Hlen & Hkey & Hkey' & Hkey'')%bare_name_inv Htail.
  unfold url_pattern. cbn [match_pieces].
  assert (stops (fun c => negb (is_one_of ["="; "&"]%char c)) tail = true) as Htail'.
  { destruct tail as [|c tail]; [done|]. cbn [stops] in Htail |- *.
    apply negb_true_iff, negb_false_iff in Htail. unfold is_one_of in Htail |- *.
    cbn [existsb] in Htail |- *. rewrite orb_false_r in Htail.
    apply Ascii.eqb_eq in Htail as ->. done. }
  assert (run_length (is_one_of ["?"; "&"]%char) (String sep (key +:+ tail)) = 1) as ->.
  { cbn [run_length]. rewrite Hsep. f_equal.
    destruct key as [|c key]; [cbn in Hlen; lia|].
    change (String c key +:+ tail) with (String c (key +:+ tail)).
    cbn [all_chars] in Hkey''. apply andb_true_iff in Hkey'' as [Hc _].
    cbn [run_length]. by destruct (is_one_of ["?"; "&"]%char c). }
  apply give_back_none. intros n' ??. assert (n' = 1) as -> by lia.
  cbn [drop_chars match_pieces]. rewrite run_length_app by done.
  apply give_back_none. intros n' ??.
  exact (no_equals_after_name [Repeat (fun c => negb (is_one_of ["&"]%char c)) 0 true]
           key tail n' Hkey Htail ltac:(lia)).
Qed.

(** The search walks over characters other than "?" and "&". *)
Lemma replace_scan_skips (a s : string) (fuel : nat) (vars : gmap string string) :
  all_chars (fun c => negb (is_one_of ["?"; "&"]%char c)) a = true ->
  replace_scan (String.length a + fuel) (a +:+ s) vars = replace_scan fuel s vars.
Proof.
  intros Ha. induction a as [|c a IH]; [done|].
  cbn [all_chars] in Ha. apply andb_true_iff in Ha as [Hc Ha].
  change (String c a +:+ s) with (String c (a +:+ s)).
  cbn [String.length Nat.add replace_scan].
  rewrite no_match_without_separator by done. by apply IH.
Qed.

Lemma parameters_amp_stops (items : list (string * option string)) :
  stops (fun c => negb (is_one_of ["&"]%char c)) (parameters "&" items) = true.
Proof. by destruct items as [|[key [value|]] rest]. Qed.

(** The search over a list of parameters keeps those that have a value, in
    order. *)
Lemma replace_scan_parameters (items : list (string * option string)) (sep : ascii)
    (fuel : nat) (vars : gmap string string) :
  is_one_of ["?"; "&"]%char sep = true ->
  forallb plain_item items = true ->
  String.length (parameters sep items) <= fuel ->
  replace_scan fuel (parameters sep items) vars
  = foldl (fun vars kv => assign kv.1 kv.2 vars) vars (valued items).
Proof.
  revert sep fuel vars.
  induction items as [|[key [value|]] rest IH]; intros sep fuel vars Hsep Hitems Hfuel.
  - destruct fuel; [done|]. cbn [parameters replace_scan].
    by rewrite no_match_without_separator.
  - cbn [forallb] in Hitems. apply andb_true_iff in Hitems as [Hitem Hrest].
    unfold plain_item in Hitem. cbn [fst snd] in Hitem.
    apply andb_true_iff in Hitem as [Hkey Hvalue].
    cbn [parameters] in Hfuel |- *.
    cbn [String.length] in Hfuel. rewrite !length_append in Hfuel.
    destruct fuel as [|fuel]; [lia|]. cbn [replace_scan].
    rewrite match_parameter by (done || apply parameters_amp_stops).
    rewrite IH; [done|done|done|lia].
  - cbn [forallb] in Hitems. apply andb_true_iff in Hitems as [Hitem Hrest].
    unfold plain_item in Hitem. cbn [fst snd] in Hitem.
    cbn [parameters] in Hfuel |- *.
    cbn [String.length] in Hfuel. rewrite !length_append in Hfuel.
    destruct fuel as [|fuel]; [lia|]. cbn [replace_scan].
    rewrite match_bare_parameter by (done || apply parameters_amp_stops).
    replace fuel with (String.length key + (fuel - String.length key)) by lia.
    rewrite replace_scan_skips by (by apply bare_name_inv).
    rewrite IH; [done|done|done|lia].
Qed.

Lemma assign_lookup (key value k : string) (vars : gmap string string) :
  assign key value vars !! k
  = if decide (key = k /\ key <> "__proto__") then Some value else vars !! k.
Proof.
  unfold assign. destruct (String.eqb_spec key "__proto__") as [->|Hne].
  - rewrite decide_False; [done|]. naive_solver.
  - destruct (decide (key = k)) as [->|Hk].
    + rewrite decide_True by done. apply lookup_insert_eq.
    + rewrite decide_False by naive_solver. by apply lookup_insert_ne.
Qed.

Lemma foldl_assign_lookup (pairs : list (string * string)) (vars : gmap string string)
    (key : string) :
  foldl (fun vars kv => assign kv.1 kv.2 vars) vars pairs !! key
  = match last_value key pairs with
    | Some value => Some value
    | None => vars !! key
    end.
Proof.
  unfold last_value. revert vars.
  induction pairs as [|[k v] pairs IH]; intros vars.
  - cbn. by destruct (String.eqb key "__proto__").
  - cbn [foldl]. rewrite IH, filter_cons. cbn [fst snd].
    destruct (String.eqb_spec key "__proto__") as [Heq|Hne].
    + rewrite assign_lookup, decide_False; [done|]. naive_solver.
    + destruct (decide (k = key)) as [->|Hk].
      * rewrite last_cons. destruct (last _); [done|]. cbn.
        rewrite assign_lookup. by rewrite decide_True.
      * destruct (last _); [done|]. cbn. rewrite assign_lookup.
        by rewrite decide_False by naive_solver.
Qed.

(** getUrlVars reads back the parameters of an address: after a part
    without "?" and "&", the parameters that have a value are in the
    object, each name with the last value given to it (a value runs to the
    next "&" or to the end, fragment included); the parameters without "="
    are not, and neither is a parameter named [__proto__]. *)
Lemma getUrlVars_reads_parameters (base : string) (items : list (string * option string)) :
  all_chars (fun c => negb (is_one_of ["?"; "&"]%char c)) base = true ->
  forallb plain_item items = true ->
  getUrlVars (base +:+ parameters "?" items)
  = foldl (fun vars kv => assign kv.1 kv.2 vars) ∅ (valued items)
  /\ forall key,
       getUrlVars (base +:+ parameters "?" items) !! key = last_value key (valued items).
Proof.
  intros Hbase Hitems.
  assert (getUrlVars (base +:+ parameters "?" items)
          = foldl (fun vars kv => assign kv.1 kv.2 vars) ∅ (valued items)) as Heq.
  { unfold getUrlVars. rewrite length_append.
    replace (S (String.length base + String.length (parameters "?" items)))
      with (String.length base + S (String.length (parameters "?" items))) by lia.
    rewrite replace_scan_skips by done.
    apply replace_scan_parameters; [done|done|lia]. }
  split; [done|]. intros key. rewrite Heq, foldl_assign_lookup.
  by destruct (last_value _ _).
Qed.

Lemma getUrlVars_reads_parameters_witness :
  getUrlVars "http://site/page.aspx?ID=12&debug&Name=John%20Doe&__proto__=x&ID=13#top"
  = {[ "ID" := "13#top"; "Name" := "John%20Doe" ]}.
Proof.
  pose proof (proj1 (getUrlVars_reads_parameters "http://site/page.aspx"
                       [("ID", Some "12"); ("debug", None);
                        ("Name", Some "John%20Doe"); ("__proto__", Some "x");
                        ("ID", Some "13#top")]
                       eq_refl eq_refl)) as H.
  etransitivity; [exact H|]. vm_compute. reflexivity.
Defined.

(** ** responseToArray *)

Lemma array_indexOf_from_ge (i : Z) (a : list Read) (x : Read) :
  x ∈ a -> (i <= array_indexOf_from i a x)%Z.
Proof.
  revert i. induction a as [|y a IH]; intros i Hin.
  - by apply elem_of_nil in Hin.
  - cbn [array_indexOf_from]. destruct (decide (y = x)) as [->|Hne]; [lia|].
    apply elem_of_cons in Hin as [->|Hin]; [done|].
    specialize (IH (i + 1)%Z Hin). lia.
Qed.

Lemma array_indexOf_from_absent (i : Z) (a : list Read) (x : Read) :
  x ∉ a -> array_indexOf_from i a x = (-1)%Z.
Proof.
  revert i. induction a as [|y a IH]; intros i Hin; [done|].
  cbn [array_indexOf_from]. apply not_elem_of_cons in Hin as [Hne Hin].
  rewrite decide_False by done. by apply IH.
Qed.

(** [a.indexOf(x) == -1] says that [x] is not in [a]. *)
Lemma array_indexOf_absent (a : list Read) (x : Read) :
  (array_indexOf a x =? -1)%Z = bool_decide (x ∉ a).
Proof.
  unfold array_indexOf. destruct (decide (x ∈ a)) as [Hin|Hout].
  - rewrite bool_decide_eq_false_2 by (by intros ?).
    apply Z.eqb_neq. pose proof (array_indexOf_from_ge 0 a x Hin). lia.
  - rewrite bool_decide_eq_true_2 by done.
    by rewrite array_indexOf_from_absent.
Qed.

Lemma filter_all {A} (P : A -> Prop) `{!forall x, Decision (P x)} (l : list A) :
  (forall x, x ∈ l -> P x) -> filter P l = l.
Proof.
  induction l as [|x l IH]; intros Hall; [done|].
  rewrite filter_cons_True by (apply Hall; left). f_equal.
  apply IH. intros y Hy. apply Hall. by right.
Qed.

Lemma filter_keep_first (P : Read -> Prop) `{!forall x, Decision (P x)} (l : list Read) :
  filter P (keep_first l) = keep_first (filter P l).
Proof.
  induction l as [|x l IH]; [done|]. cbn [keep_first].
  rewrite !filter_cons. destruct (decide (P x)) as [HP|HP].
  - cbn [keep_first]. f_equal. rewrite <- IH.
    rewrite !list_filter_filter. apply list_filter_iff. naive_solver.
  - rewrite <- IH, list_filter_filter. apply list_filter_iff.
    intros y. split; [naive_solver|]. intros Hy. split; [done|]. by intros ->.
Qed.

(** The loop of responseToArray, started with [acc], appends the new values
    at the place of their first occurrence. *)
Lemma collect_loop (values : list Read) (acc : list Read) :
  foldl (fun arrayObtained v =>
           if (array_indexOf arrayObtained v =? -1)%Z then arrayObtained ++ [v]
           else arrayObtained) acc values
  = acc ++ keep_first (filter (fun v => v ∉ acc) values).
Proof.
  revert acc. induction values as [|x values IH]; intros acc.
  - by rewrite app_nil_r.
  - cbn [foldl]. rewrite array_indexOf_absent, IH, filter_cons.
    destruct (decide (x ∉ acc)) as [Hout|Hin].
    + rewrite bool_decide_eq_true_2 by done. cbn [keep_first].
      rewrite <- app_assoc. cbn [app]. do 2 f_equal.
      rewrite filter_keep_first, list_filter_filter. f_equal.
      apply list_filter_iff. intros y. rewrite not_elem_of_app, list_elem_of_singleton.
      naive_solver.
    + rewrite bool_decide_eq_false_2 by done. done.
Qed.

Lemma keep_first_elem_of (l : list Read) (x : Read) : x ∈ keep_first l <-> x ∈ l.
Proof.
  induction l as [|y l IH]; [done|]. cbn [keep_first].
  rewrite !elem_of_cons, list_elem_of_filter, IH.
  destruct (decide (x = y)); naive_solver.
Qed.

Lemma keep_first_NoDup (l : list Read) : NoDup (keep_first l).
Proof.
  induction l as [|y l IH]; [constructor|]. cbn [keep_first]. constructor.
  - rewrite list_elem_of_filter. naive_solver.
  - by apply NoDup_filter.
Qed.

Lemma keep_first_id (l : list Read) : NoDup l -> keep_first l = l.
Proof.
  induction 1 as [|x l Hx Hl IH]; [done|]. cbn [keep_first]. f_equal.
  rewrite IH. apply filter_all. intros y Hy ->. done.
Qed.

Lemma responseToArray_collects
    (sort : (Read -> Read -> option Z) -> list Read -> option (list Read))
    (objArr : list ListItem) (property : string) (person : JsVal) :
  responseToArray sort objArr property person
  = let distinct := keep_first ((fun obj => property_read obj property) <$> objArr) in
    if ToBoolean person then sort by_person distinct else Some distinct.
Proof.
  unfold responseToArray.
  assert (forall acc,
            foldl (fun arrayObtained obj =>
                     if (array_indexOf arrayObtained (property_read obj property) =? -1)%Z
                     then arrayObtained ++ [property_read obj property]
                     else arrayObtained) acc objArr
            = foldl (fun arrayObtained v =>
                       if (array_indexOf arrayObtained v =? -1)%Z then arrayObtained ++ [v]
                       else arrayObtained) acc
                ((fun obj => property_read obj property) <$> objArr)) as ->.
  { induction objArr as [|obj objArr IH]; intros acc; [done|]. cbn. apply IH. }
  rewrite collect_loop. cbn [app]. cbv zeta.
  rewrite (filter_all (fun v => v ∉ [])); [done|].
  intros ??. apply not_elem_of_nil.
Qed.

(** Without [person], responseToArray returns what the objects read under
    the property (for an object that lacks it: [undefined], or what every
    object inherits under that name) without repetition, each at the place
    of its first occurrence: every value once, no other value, and a list of
    distinct values unchanged; the sort is not called. *)
Lemma responseToArray_distinct
    (sort : (Read -> Read -> option Z) -> list Read -> option (list Read))
    (objArr : list ListItem) (property : string) (person : JsVal) :
  ToBoolean person = false ->
  let values := (fun obj => property_read obj property) <$> objArr in
  exists distinct,
    responseToArray sort objArr property person = Some distinct
    /\ distinct = keep_first values
    /\ NoDup distinct
    /\ (forall x, x ∈ distinct <-> exists obj, obj ∈ objArr /\ property_read obj property = x)
    /\ (NoDup values -> distinct = values).
Proof.
  intros Hp values. exists (keep_first values).
  rewrite responseToArray_collects, Hp. cbv zeta. fold values.
  split; [done|]. split; [done|]. split; [apply keep_first_NoDup|]. split.
  - intros x. rewrite keep_first_elem_of. unfold values. rewrite list_elem_of_fmap.
    naive_solver.
  - apply keep_first_id.
Qed.

Lemma responseToArray_distinct_witness :
  responseToArray insertion_sort people "Author" JUndefined
  = Some [Value (JString "7;#Zoe"); Value (JString "3;#Adam"); Value JUndefined].
Proof.
  destruct (responseToArray_distinct insertion_sort people "Author" JUndefined eq_refl)
    as (distinct & -> & -> & _).
  reflexivity.
Defined.

(** With [person], whatever the engine's sort does as long as it only
    reorders, the result still holds each value of the property once and no
    other value. *)
Lemma responseToArray_sorted_same_values
    (sort : (Read -> Read -> option Z) -> list Read -> option (list Read))
    (objArr : list ListItem) (property : string) (person : JsVal) (sorted : list Read) :
  (forall cmp l l', sort cmp l = Some l' -> l' ≡ₚ l) ->
  ToBoolean person = true ->
  responseToArray sort objArr property person = Some sorted ->
  sorted ≡ₚ keep_first ((fun obj => property_read obj property) <$> objArr)
  /\ NoDup sorted
  /\ (forall x, x ∈ sorted <-> exists obj, obj ∈ objArr /\ property_read obj property = x).
Proof.
  intros Hsort Hp. rewrite responseToArray_collects, Hp. cbv zeta.
  intros Hs%Hsort. split; [done|]. split.
  - rewrite Hs. apply keep_first_NoDup.
  - intros x. rewrite Hs, keep_first_elem_of, list_elem_of_fmap. naive_solver.
Qed.

Lemma insert_sorted_perm (cmp : Read -> Read -> option Z) (x : Read) (l l' : list Read) :
  insert_sorted cmp x l = Some l' -> l' ≡ₚ x :: l.
Proof.
  revert l'. induction l as [|y l IH]; intros l' H; cbn [insert_sorted] in H.
  - by injection H as <-.
  - destruct (SortCompare cmp x y) as [c|]; [|done].
    destruct (c <=? 0)%Z; [by injection H as <-|].
    destruct (insert_sorted cmp x l) as [l0|]; [|done].
    injection H as <-. rewrite (IH l0 eq_refl). apply Permutation_swap.
Qed.

Lemma insertion_sort_perm (cmp : Read -> Read -> option Z) (l l' : list Read) :
  insertion_sort cmp l = Some l' -> l' ≡ₚ l.
Proof.
  revert l'. induction l as [|x l IH]; intros l' H; cbn in H.
  - by injection H as <-.
  - destruct (insertion_sort cmp l) as [sorted|]; [|done].
    apply insert_sorted_perm in H. rewrite H. by rewrite (IH sorted eq_refl).
Qed.

(** The sort puts [undefined] last without calling the comparison on it, so
    that an object without the property does not make the sort fail. *)
Example responseToArray_sorts_undefined_last :
  responseToArray insertion_sort people "Author" (JBool true)
  = Some [Value (JString "3;#Adam"); Value (JString "7;#Zoe"); Value JUndefined].
Proof. vm_compute. reflexivity. Qed.

Lemma responseToArray_sorted_same_values_witness :
  [Value (JString "3;#Adam"); Value (JString "7;#Zoe")]
  ≡ₚ keep_first ((fun obj => property_read obj "Author") <$> take 3 people)
  /\ NoDup [Value (JString "3;#Adam"); Value (JString "7;#Zoe")]
  /\ (forall x, x ∈ [Value (JString "3;#Adam"); Value (JString "7;#Zoe")]
                <-> exists obj, obj ∈ take 3 people /\ property_read obj "Author" = x).
Proof.
  exact (responseToArray_sorted_same_values insertion_sort (take 3 people) "Author"
           (JBool true) [Value (JString "3;#Adam"); Value (JString "7;#Zoe")]
           insertion_sort_perm eq_refl eq_refl).
Defined.

(** The comparison function of the sort: it throws exactly when one of the
    two values is no string; on strings it is antisymmetric; and a string
    without "#" ties with every string, before as after. *)
Lemma by_person_ties (a b : Read) :
  (by_person a b = None <-> ~ (exists s t, a = Value (JString s) /\ b = Value (JString t)))
  /\ (forall s t,
        a = Value (JString s) -> b = Value (JString t) ->
        (by_person a b = Some 1%Z <-> by_person b a = Some (-1)%Z)
        /\ (by_person a b = Some 0%Z <-> by_person b a = Some 0%Z)
        /\ (String.index 0 "#" t = None ->
            by_person a b = Some 0%Z /\ by_person b a = Some 0%Z)).
Proof.
  split.
  - destruct a as [[| | | |s]|], b as [[| | | |t]|]; cbn; try naive_solver.
    split; [|naive_solver]. by repeat case_match.
  - intros s t -> ->. unfold by_person.
    assert (forall x y, js_gt x y = true -> js_gt y x = false) as Hanti.
    { intros [| | | |x] [| | | |y]; cbn; try done.
      rewrite (String.compare_antisym y x). by destruct (x ?= y)%string. }
    split; [|split].
    + destruct (js_gt (second_piece s) (second_piece t)) eqn:H1.
      * by rewrite (Hanti _ _ H1).
      * destruct (js_gt (second_piece t) (second_piece s)); naive_solver.
    + destruct (js_gt (second_piece s) (second_piece t)) eqn:H1.
      * rewrite (Hanti _ _ H1). naive_solver.
      * destruct (js_gt (second_piece t) (second_piece s)); naive_solver.
    + intros Ht. unfold second_piece. rewrite Ht.
      by destruct (index 0 "#" s).
Qed.

Lemma by_person_ties_witness :
  by_person (Value (JString "7;#Zoe")) (Value (JString "nobody")) = Some 0%Z
  /\ by_person (Value (JString "nobody")) (Value (JString "7;#Zoe")) = Some 0%Z.
Proof.
  exact (proj2 (proj2 (proj2 (by_person_ties (Value (JString "7;#Zoe"))
                                (Value (JString "nobody")))
                         "7;#Zoe" "nobody" eq_refl eq_refl)) eq_refl).
Defined.

(** An address without "?" and "&" has no parameters: the object is empty. *)
Lemma getUrlVars_no_parameters (href : string) :
  all_chars (fun c => negb (is_one_of ["?"; "&"]%char c)) href = true ->
  getUrlVars href = ∅.
Proof.
  intros Hhref.
  destruct (getUrlVars_reads_parameters href [] Hhref eq_refl) as [H _].
  cbn [parameters] in H. by rewrite append_empty_r in H.
Qed.

Lemma getUrlVars_no_parameters_witness :
  getUrlVars "http://site/Lists/Employees/AllItems.aspx#top" = ∅.
Proof.
  exact (getUrlVars_no_parameters "http://site/Lists/Employees/AllItems.aspx#top" eq_refl).
Defined.

(** getExternalListItems sends one request, with the query and the site as
    they were given: an absent query stays absent and an empty one empty,
    no default is put in their place. *)
Lemma getExternalListItems_request (sp : SPRequest -> Response) (lName : string)
    (query : option string) (fields : list string) (webUrl : option string)
    (callback : option Callback) (w : World) :
  exists req,
    requests (getExternalListItems sp lName query fields webUrl callback w).2
    = requests w ++ [req]
    /\ operation req = "GetListItems"
    /\ CAMLQuery req = query
    /\ webURL req = webUrl
    /\ async req = (if callback is Some _ then true else false).
Proof.
  destruct callback as [cb|].
  - rewrite getExternalListItems_async. by eexists.
  - rewrite getExternalListItems_sync. by eexists.
Qed.
